(** * teocs: the Hack assembler and the VM translator

    A shallow embedding of [assembler/assembler.py] and
    [vmtranslator/src/VMtranslator.py], followed by the properties of the
    toolchain specification that were checked against it.

    Conventions of the embedding.
    - Python [int] is [Z]; Python [str] is [string] (a sequence of bytes:
      only ASCII text is modelled).
    - A method that mutates [self] takes the object and returns the new one.
    - A raised exception is a [Raise e] result; an exception that nobody
      catches ends the process with a non-zero status.
    - The text written to the output file of the VM translator is kept as
      the list of its lines: every piece the source appends has the form
      ['...\n'], and is one element of the list (see [file_text]). *)

From stdpp Require Import gmap strings pretty list.
From Stdlib Require Import ZArith Ascii.

Local Open Scope Z_scope.

(** ** Exceptions and results *)

Inductive exn : Type :=
| NameError (name : string)
| ValueError
| IndexError
| TypeError
| AttributeError
| KeyError
| SystemExit (code : Z)
| Exception (msg : string).

Inductive result (A : Type) : Type :=
| Ok (a : A)
| Raise (e : exn).
Arguments Ok {A} a.
Arguments Raise {A} e.

(** Sequencing: the first exception raised ends the computation. The
    notation [x ← r; k] of stdpp is used for it. *)
Global Instance result_ret : MRet result := λ A a, Ok a.
Global Instance result_bind : MBind result := λ A B k r,
  match r with
  | Ok a => k a
  | Raise e => Raise e
  end.

(** ** The parts of Python's [str], [int] and [re] that the two tools use *)

Module Py.

Definition newline : ascii := "010"%char.

(** [str.isspace] on ASCII, which is also the class [\s] of [re]. *)
Definition isspace (c : ascii) : bool :=
  match c with
  | "009" | "010" | "011" | "012" | "013"
  | "028" | "029" | "030" | "031" | " " => true
  | _ => false
  end%char.

(** The value of a decimal digit. *)
Definition digit_value (c : ascii) : option Z := Z.of_nat <$> Ascii.is_nat c.

Definition isdigit (c : ascii) : bool :=
  match digit_value c with Some _ => true | None => false end.

(** [str(n)] for an [int]. *)
Definition str (n : Z) : string := pretty n.

(** [c in chars] *)
Fixpoint mem (c : ascii) (chars : string) : bool :=
  match chars with
  | EmptyString => false
  | String d chars' => if Ascii.eqb c d then true else mem c chars'
  end.

Definition upper_char (c : ascii) : ascii :=
  let n := nat_of_ascii c in
  if ((97 <=? n)%nat && (n <=? 122)%nat)%bool then ascii_of_nat (n - 32) else c.

(** [s.upper()] *)
Fixpoint upper (s : string) : string :=
  match s with
  | EmptyString => EmptyString
  | String c s' => String (upper_char c) (upper s')
  end.

Fixpoint lstrip_by (p : ascii → bool) (s : string) : string :=
  match s with
  | EmptyString => EmptyString
  | String c s' => if p c then lstrip_by p s' else s
  end.

Fixpoint rstrip_by (p : ascii → bool) (s : string) : string :=
  match s with
  | EmptyString => EmptyString
  | String c s' =>
      match rstrip_by p s' with
      | EmptyString => if p c then EmptyString else String c EmptyString
      | r => String c r
      end
  end.

(** [s.rstrip(chars)]: drops every trailing character that occurs in
    [chars]; [chars] is a set of characters, not a suffix. *)
Definition rstrip (chars : string) (s : string) : string :=
  rstrip_by (λ c, mem c chars) s.

(** [s.strip()] *)
Definition strip (s : string) : string :=
  lstrip_by isspace (rstrip_by isspace s).

(** [re.match(lit, s)] for a pattern without operators: [s] starts with
    [lit]. A leading [^] changes nothing for [re.match]. *)
Definition startswith (lit s : string) : bool := String.prefix lit s.

(** [re.match('a|b|...', s)] for an alternation of such patterns. *)
Definition match_any (alts : list string) (s : string) : bool :=
  existsb (λ a, startswith a s) alts.

(** [re.split(r'\s+', s)]: the pieces between the maximal runs of white
    space; a run at either end leaves an empty piece there. [prev] tells
    that the previous character was white space. *)
Fixpoint split_ws (prev : bool) (s : string) : list string :=
  match s with
  | EmptyString => [EmptyString]
  | String c s' =>
      if isspace c then
        if prev then split_ws true s' else EmptyString :: split_ws true s'
      else
        match split_ws false s' with
        | w :: ws => String c w :: ws
        | [] => [String c EmptyString]
        end
  end.

Definition re_split_ws (s : string) : list string := split_ws false s.

(** [os.path.basename(p)] of [posixpath]: what follows the last ['/']. *)
Fixpoint basename (p : string) : string :=
  match p with
  | EmptyString => EmptyString
  | String c p' =>
      if mem "/"%char p' then basename p'
      else if Ascii.eqb c "/"%char then p' else p
  end.

(** The digits of a decimal literal, where [int] allows one underscore
    between two digits. [acc] is the value read so far and [prev] tells
    that the previous character was a digit. *)
Fixpoint int_digits (acc : Z) (prev : bool) (s : string) : option Z :=
  match s with
  | EmptyString => if prev then Some acc else None
  | String c s' =>
      match digit_value c with
      | Some d => int_digits (10 * acc + d) true s'
      | None =>
          if (Ascii.eqb c "_"%char && prev)%bool
          then match s' with
               | EmptyString => None
               | String c' _ => if isdigit c' then int_digits acc false s' else None
               end
          else None
      end
  end.

(** [int(s)] for a [str]: white space around, an optional sign, decimal
    digits. Anything else raises [ValueError]. *)
Definition int (s : string) : result Z :=
  let unsigned (t : string) (sign : Z) : result Z :=
    match int_digits 0 false t with
    | Some n => Ok (sign * n)
    | None => Raise ValueError
    end in
  match strip s with
  | String "-"%char t => unsigned t (-1)
  | String "+"%char t => unsigned t 1
  | t => unsigned t 1
  end.

(** The lines that [readline] returns for a text file whose lines are
    [texts], each ended by a newline. *)
Definition file_of (texts : list string) : list string :=
  (λ text, text +:+ String newline EmptyString) <$> texts.

End Py.

(** ** The VM translator ([vmtranslator/src/VMtranslator.py]) *)

Module VMtranslator.
Import Py.

Inductive command_type : Type :=
| C_ARITHMETIC | C_PUSH | C_POP | C_LABEL | C_GOTO | C_IF
| C_FUNCTION | C_RETURN | C_CALL | C_UNKNOWN.

Global Instance command_type_eq_dec : EqDecision command_type.
Proof. solve_decision. Defined.

(** *** Parser *)

(** One scan of [re.sub(r'\s*\/\/.*', '', line)]. A match starts where
    white space followed by two slashes starts, and runs to the end of
    the line. *)
Inductive scan_mode : Type := Copy | InSpace | InComment.

Definition starts_comment (s : string) : bool :=
  startswith "//" (lstrip_by isspace s).

Fixpoint sub_comment (m : scan_mode) (s : string) : string :=
  match s with
  | EmptyString => EmptyString
  | String c s' =>
      let fresh :=
        if starts_comment s
        then sub_comment (if isspace c then InSpace else InComment) s'
        else String c (sub_comment Copy s') in
      match m with
      | Copy => fresh
      | InSpace => sub_comment (if isspace c then InSpace else InComment) s'
      | InComment => if Ascii.eqb c newline then fresh else sub_comment InComment s'
      end
  end.

(** [re.sub('\s{2,}', ' ', line)]: a run of two or more white-space
    characters becomes one space; [run] tells that such a run is being
    skipped. *)
Fixpoint collapse (run : bool) (s : string) : string :=
  match s with
  | EmptyString => EmptyString
  | String c s' =>
      if isspace c then
        if run then collapse true s'
        else match s' with
             | String c' _ =>
                 if isspace c' then String " "%char (collapse true s')
                 else String c (collapse false s')
             | EmptyString => String c EmptyString
             end
      else String c (collapse false s')
  end.

(** The loop [while parser.advance(): ...] of [main], as the list of the
    pairs [(_line, _lineNbr)] that the successive calls of [advance]
    leave in the parser. The file is the list of the lines [readline]
    returns; [readline] returns [''] at the end of the file, where the
    loop of [advance] stops. [_lineNbr] is set to 1 by every call of
    [advance] and counts the lines that this call skips. *)
Fixpoint advance (f : list string) (lineNbr : Z) : list (string * Z) :=
  match f with
  | [] => []
  | raw :: f' =>
      if String.eqb raw "" then []
      else
        let line := sub_comment Copy (strip raw) in
        if String.eqb line "" then advance f' (lineNbr + 1)
        else (collapse false line, lineNbr) :: advance f' 1
  end.

Definition arithmetic_ops : list string :=
  ["add"; "sub"; "neg"; "eq"; "gt"; "lt"; "and"; "or"; "not"].

(** The class that the chain of [re.match] tests of [commandType]
    assigns to [ret]. *)
Definition classify (line : string) : command_type :=
  match re_split_ws line with
  | [e0] =>
      if startswith "return" e0 then C_RETURN
      else if match_any arithmetic_ops e0 then C_ARITHMETIC
      else C_UNKNOWN
  | [e0; _] =>
      if startswith "label" e0 then C_LABEL
      else if startswith "goto" e0 then C_GOTO
      else if startswith "if-goto" e0 then C_IF
      else C_UNKNOWN
  | [e0; _; _] =>
      if startswith "function" e0 then C_FUNCTION
      else if startswith "call" e0 then C_CALL
      else if startswith "push" e0 then C_PUSH
      else if startswith "pop" e0 then C_POP
      else C_UNKNOWN
  | _ => C_UNKNOWN
  end.

(** [Parser.commandType]. For [C_UNKNOWN] the source evaluates the
    argument ['[Error] Unknown command type ' + element[0] + ' at line']
    of [print]; no name [element] is bound (the list is [elements]), so
    [NameError] is raised before [print] and [sys.exit(1)] are reached. *)
Definition commandType (line : string) : result command_type :=
  let ret := classify line in
  if decide (C_UNKNOWN = ret) then Raise (NameError "element") else Ok ret.

Definition item (elements : list string) (i : nat) : result string :=
  match elements !! i with
  | Some e => Ok e
  | None => Raise IndexError
  end.

Definition arg1 (line : string) : result string :=
  let elements := re_split_ws line in
  t ← commandType line;
  if decide (C_ARITHMETIC = t) then item elements 0 else item elements 1.

Definition arg2 (line : string) : result string :=
  item (re_split_ws line) 2.

(** *** CodeWriter *)

(** [cw_f] is the text written to the output file so far, line by line.
    [retAddrCnt] and [cnt] are attributes that the source creates at
    their first use: [None] stands for an attribute not yet set. *)
Record CodeWriter : Type := mkCodeWriter {
  cw_f : list string;
  fileName : string;
  functionName : string;
  retAddrCnt : option Z;
  cnt : option Z
}.

Definition write (ret : list string) (self : CodeWriter) : CodeWriter :=
  mkCodeWriter (cw_f self ++ ret) (fileName self) (functionName self)
               (retAddrCnt self) (cnt self).

Definition set_functionName (name : string) (self : CodeWriter) : CodeWriter :=
  mkCodeWriter (cw_f self) (fileName self) name (retAddrCnt self) (cnt self).

Definition set_retAddrCnt (n : Z) (self : CodeWriter) : CodeWriter :=
  mkCodeWriter (cw_f self) (fileName self) (functionName self) (Some n) (cnt self).

Definition set_cnt (n : Z) (self : CodeWriter) : CodeWriter :=
  mkCodeWriter (cw_f self) (fileName self) (functionName self) (retAddrCnt self) (Some n).

(** The content of the output file. *)
Definition file_text (self : CodeWriter) : string :=
  foldr (λ line rest, line +:+ String newline rest) "" (cw_f self).

(** [CodeWriter.__init__]; the file is opened for writing, so it starts
    empty. *)
Definition init (fileName : string) : CodeWriter :=
  mkCodeWriter [] (rstrip ".asm" (basename fileName)) fileName None None.

Definition setFileName (fileName : string) (self : CodeWriter) : CodeWriter :=
  let short := rstrip ".vm" (basename fileName) in
  mkCodeWriter (cw_f self) short short (retAddrCnt self) (cnt self).

Definition incSP : list string := ["@SP"; "M=M+1"].

Definition preArithCommandCode (isUnary : bool) : list string :=
  (if isUnary then [] else ["@SP"; "M=M-1"; "A=M"; "D=M"])
  ++ ["@SP"; "M=M-1"; "A=M"].

(** [__lteqgt]: the counter is created at 0 when it is missing, is used
    in the label, and is incremented. *)
Definition lteqgt (command : string) (self : CodeWriter)
  : list string * CodeWriter :=
  let k := default 0 (cnt self) in
  let name := upper command in
  let jump := "J" +:+ name in
  let label := name +:+ str k in
  ([ "D=M-D"; "M=-1"; "@" +:+ label; "D;" +:+ jump;
     "@SP"; "A=M"; "M=0"; "(" +:+ label +:+ ")" ],
   set_cnt (k + 1) self).

Definition writeArithmetic (command : string) (self : CodeWriter) : CodeWriter :=
  let isUnary := match_any ["neg"; "not"] command in
  let ret := ["// " +:+ command] ++ preArithCommandCode isUnary in
  let '(body, self) :=
    if startswith "add" command then (["M=D+M"], self)
    else if startswith "sub" command then (["M=M-D"], self)
    else if startswith "neg" command then (["M=-M"], self)
    else if startswith "and" command then (["M=D&M"], self)
    else if startswith "or" command then (["M=D|M"], self)
    else if startswith "not" command then (["M=!M"], self)
    else lteqgt command self in
  write (ret ++ body ++ incSP) self.

Definition POINTER_BASE_ADDR : Z := 3.
Definition TEMP_BASE_ADDR : Z := 5.

Definition baseaddr (segment : string) (index : Z) (self : CodeWriter)
  : list string :=
  if startswith "argument" segment then ["@ARG"]
  else if startswith "local" segment then ["@LCL"]
  else if startswith "static" segment
    then ["@" +:+ fileName self +:+ "." +:+ str index]
  else if startswith "constant" segment then ["@" +:+ str index; "D=A"]
  else if startswith "this" segment then ["@THIS"]
  else if startswith "that" segment then ["@THAT"]
  else if startswith "pointer" segment
    then ["@" +:+ str (POINTER_BASE_ADDR + index)]
  else ["@" +:+ str (TEMP_BASE_ADDR + index)].

Definition writePushPop (command : command_type) (segment : string)
    (index : Z) (self : CodeWriter) : CodeWriter :=
  if decide (C_PUSH = command) then
    write
      (["// push " +:+ segment +:+ " " +:+ str index]
       ++ baseaddr segment index self
       ++ (if match_any ["static"; "constant"; "pointer"; "temp"] segment
           then []
           else if decide (0 = index) then ["A=M"]
           else if decide (1 = index) then ["A=M"; "A=A+1"]
           else ["D=M"; "@" +:+ str index; "A=D+A"])
       ++ (if startswith "constant" segment then [] else ["D=M"])
       ++ ["@SP"; "A=M"; "M=D"]
       ++ incSP)
      self
  else
    write
      (["// pop " +:+ segment +:+ " " +:+ str index]
       ++ ["@SP"; "M=M-1"]
       ++ (if startswith "constant" segment then []
           else
             ["A=M"; "D=M"]
             ++ baseaddr segment index self
             ++ (if match_any ["static"; "pointer"; "temp"] segment then []
                 else ["A=M"] ++ replicate (Z.to_nat index) "A=A+1")
             ++ ["M=D"]))
      self.

Definition writeLabel (label : string) (self : CodeWriter) : CodeWriter :=
  write ["// label " +:+ label;
         "(" +:+ functionName self +:+ "$" +:+ label +:+ ")"] self.

Definition writeIf (label : string) (self : CodeWriter) : CodeWriter :=
  write ["// if " +:+ label; "@SP"; "M=M-1"; "A=M"; "D=M";
         "@" +:+ functionName self +:+ "$" +:+ label; "D;JNE"] self.

Definition writeGoto (label : string) (self : CodeWriter) : CodeWriter :=
  write ["// goto " +:+ label;
         "@" +:+ functionName self +:+ "$" +:+ label; "0;JMP"] self.

Definition pushVal (addr : string) : list string :=
  ["@" +:+ addr; "D=M"; "@SP"; "A=M"; "M=D"] ++ incSP.

(** [writeCall]: the counter is incremented when it exists and created
    at 0 otherwise, and its new value is used in the return label. *)
Definition writeCall (functionName : string) (numArgs : Z)
    (self : CodeWriter) : CodeWriter :=
  let k := match retAddrCnt self with Some c => c + 1 | None => 0 end in
  let self := set_retAddrCnt k self in
  let returnAddrLabel := functionName +:+ "$returnAddr" +:+ str k in
  write
    (["// call " +:+ functionName +:+ " " +:+ str numArgs;
      "@" +:+ returnAddrLabel; "D=A"; "@SP"; "A=M"; "M=D"]
     ++ incSP
     ++ flat_map (λ val, ["// push " +:+ val] ++ pushVal val)
                 ["LCL"; "ARG"; "THIS"; "THAT"]
     ++ ["// ARG = SP-numArgs-5"; "@SP"; "D=M"]
     ++ (if decide (0 ≠ numArgs) then ["@" +:+ str numArgs; "D=D-A"] else [])
     ++ ["@5"; "D=D-A"; "@ARG"; "M=D"]
     ++ ["// LCL = SP"; "@SP"; "D=M"; "@LCL"; "M=D"]
     ++ ["// goto " +:+ functionName; "@" +:+ functionName; "0;JMP"]
     ++ ["// declare label for the return address";
         "(" +:+ returnAddrLabel +:+ ")"])
    self.

Definition writeInit (self : CodeWriter) : CodeWriter :=
  writeCall "Sys.init" 0
    (write ["// bootstrap code"; "@256"; "D=A"; "@SP"; "M=D"] self).

Definition writeFunction (functionName : string) (numLocals : Z)
    (self : CodeWriter) : CodeWriter :=
  set_functionName functionName
    (write
       (["// function " +:+ functionName +:+ " " +:+ str numLocals;
         "(" +:+ functionName +:+ ")"]
        ++ mjoin (replicate (Z.to_nat numLocals)
                    (["@SP"; "A=M"; "M=0"] ++ incSP)))
       self).

Definition offset (resVar offsetVar : string) (off : Z) : list string :=
  ["@" +:+ offsetVar; "D=M"; "@" +:+ str off; "D=D-A"; "A=D"; "D=M";
   "@" +:+ resVar; "M=D"].

Definition writeReturn (self : CodeWriter) : CodeWriter :=
  let frame := functionName self +:+ "$FRAME" in
  let returnAddr := functionName self +:+ "$RET" in
  write
    (["// return"; "// FRAME = LCL"; "@LCL"; "D=M"; "@" +:+ frame; "M=D"]
     ++ ["// RET = *(FRAME-5)"] ++ offset returnAddr frame 5
     ++ ["// *ARG=pop()"; "@SP"; "M=M-1"; "A=M"; "D=M"; "@ARG"; "A=M"; "M=D"]
     ++ ["// SP=ARG+1"; "@ARG"; "D=M+1"; "@SP"; "M=D"]
     ++ ["// THAT = *(FRAME-1)"] ++ offset "THAT" frame 1
     ++ ["// THIS = *(FRAME-2)"] ++ offset "THIS" frame 2
     ++ ["// ARG = *(FRAME-3)"] ++ offset "ARG" frame 3
     ++ ["// LCL = *(FRAME-4)"] ++ offset "LCL" frame 4
     ++ ["// goto RET"; "@" +:+ returnAddr; "A=M"; "0;JMP"])
    self.

(** *** main *)

(** The body of the loop over the commands of one file. *)
Definition translate_command (line : string) (codeWriter : CodeWriter)
  : result CodeWriter :=
  commandType ← commandType line;
  match commandType with
  | C_ARITHMETIC =>
      a ← arg1 line; Ok (writeArithmetic a codeWriter)
  | C_PUSH | C_POP =>
      a ← arg1 line; b ← arg2 line; i ← int b;
      Ok (writePushPop commandType a i codeWriter)
  | C_IF => a ← arg1 line; Ok (writeIf a codeWriter)
  | C_GOTO => a ← arg1 line; Ok (writeGoto a codeWriter)
  | C_LABEL => a ← arg1 line; Ok (writeLabel a codeWriter)
  | C_FUNCTION =>
      a ← arg1 line; b ← arg2 line; i ← int b;
      Ok (writeFunction a i codeWriter)
  | C_RETURN => Ok (writeReturn codeWriter)
  | C_CALL =>
      a ← arg1 line; b ← arg2 line; i ← int b;
      Ok (writeCall a i codeWriter)
  | C_UNKNOWN => Raise (Exception "Unrecognized command")
  end.

Fixpoint translate (commands : list (string * Z)) (codeWriter : CodeWriter)
  : result CodeWriter :=
  match commands with
  | [] => Ok codeWriter
  | (line, _) :: commands' =>
      codeWriter ← translate_command line codeWriter;
      translate commands' codeWriter
  end.

(** The loop over [fileList]; each file comes with its content.
    [codeWriter] is [None] until the first file is reached: there
    [codeWriter.setFileName] raises [AttributeError], and the handler
    creates the writer on the output file and writes the bootstrap. *)
Fixpoint translate_files (outputFileName : string)
    (fileList : list (string * list string))
    (codeWriter : option CodeWriter) : result (option CodeWriter) :=
  match fileList with
  | [] => Ok codeWriter
  | (fileName, content) :: fileList' =>
      let codeWriter :=
        match codeWriter with
        | Some cw => setFileName fileName cw
        | None => writeInit (init outputFileName)
        end in
      codeWriter ← translate (advance content 1) codeWriter;
      translate_files outputFileName fileList' (Some codeWriter)
  end.

(** [s.endswith(suffix)] *)
Fixpoint endswith (suffix s : string) : bool :=
  if String.eqb s suffix then true
  else match s with
       | EmptyString => false
       | String _ s' => endswith suffix s'
       end.

(** [os.path.join(a, b)] of [posixpath]. *)
Definition path_join (a b : string) : string :=
  if startswith "/" b then b
  else if (String.eqb a "" || endswith "/" a)%bool then a +:+ b
  else a +:+ "/" +:+ b.

(** What [sys.argv[1]] names: a file with its content, or a directory
    with the regular files that [os.listdir] lists, in that order. *)
Inductive input : Type :=
| File (path : string) (content : list string)
| Directory (path : string) (files : list (string * list string)).

(** [main]; the result is the writer when the output file is closed. *)
Definition main (argv1 : input) : result CodeWriter :=
  let '(outputFileName, fileList) :=
    match argv1 with
    | Directory path files =>
        (path_join path (basename path),
         filter (λ el, endswith ".vm" el.1 = true)
                (prod_map (path_join path) id <$> files))
    | File path content => (rstrip ".vm" path, [(path, content)])
    end in
  let outputFileName := outputFileName +:+ ".asm" in
  codeWriter ← translate_files outputFileName fileList None;
  match codeWriter with
  | Some cw => Ok cw
  | None => Raise AttributeError
  end.

(** *** The vocabulary of the specification *)

(** [ret_counter] is the suffix that the next [call] puts in its return
    label: 0 while [retAddrCnt] is missing, and one more than its value
    afterwards. [cmp_counter] is the suffix of the next comparison
    label. *)
Definition ret_counter (self : CodeWriter) : Z :=
  match retAddrCnt self with Some c => c + 1 | None => 0 end.

Definition cmp_counter (self : CodeWriter) : Z := default 0 (cnt self).

Definition file_short_name (self : CodeWriter) : string := fileName self.

Definition current_function (self : CodeWriter) : string := functionName self.

(** One call of a method of the writer, with any arguments. A
    translation is a sequence of such calls on one writer. *)
Inductive method_call : relation CodeWriter :=
| call_setFileName fileName self :
    method_call self (setFileName fileName self)
| call_writeArithmetic command self :
    method_call self (writeArithmetic command self)
| call_writeInit self :
    method_call self (writeInit self)
| call_writePushPop command segment index self :
    method_call self (writePushPop command segment index self)
| call_writeLabel label self :
    method_call self (writeLabel label self)
| call_writeIf label self :
    method_call self (writeIf label self)
| call_writeGoto label self :
    method_call self (writeGoto label self)
| call_writeCall functionName numArgs self :
    method_call self (writeCall functionName numArgs self)
| call_writeFunction functionName numLocals self :
    method_call self (writeFunction functionName numLocals self)
| call_writeReturn self :
    method_call self (writeReturn self).

(** The line assigns to the register D: a [D] stands before its [=]. *)
Fixpoint assigns_D (line : string) : bool :=
  match line with
  | EmptyString => false
  | String c line' =>
      if Ascii.eqb c "="%char then false
      else if Ascii.eqb c "D"%char then mem "="%char line'
      else assigns_D line'
  end.

End VMtranslator.

(** ** The assembler ([assembler/assembler.py]) *)

Module Assembler.
Import Py.

Inductive command_type : Type :=
| A_COMMAND | C_COMMAND | L_COMMAND | U_COMMAND.

Global Instance command_type_eq_dec : EqDecision command_type.
Proof. solve_decision. Defined.

(** *** Parser *)

Definition COMP : list string :=
  ["0"; "1"; "-1"; "D"; "A"; "!D"; "!A"; "-D"; "-A"; "D+1"; "A+1"; "D-1";
   "A-1"; "D+A"; "D-A"; "A-D"; "D&A"; "D|A"; "M"; "!M"; "-M"; "M+1";
   "M-1"; "D+M"; "D-M"; "M-D"; "D&M"; "D|M"].
Definition JUMP : list string :=
  ["JGT"; "JEQ"; "JGE"; "JLT"; "JNE"; "JLE"; "JMP"].
Definition DEST : list string :=
  ["M"; "D"; "MD"; "A"; "AM"; "AD"; "AMD"].

(** [re.sub('\/\/.*', '', line)]: two slashes and what follows them on
    the line are removed; [.] does not match a newline. *)
Fixpoint sub_comment (comment : bool) (s : string) : string :=
  match s with
  | EmptyString => EmptyString
  | String c s' =>
      if (comment && negb (Ascii.eqb c newline))%bool then sub_comment true s'
      else if startswith "//" s then sub_comment true s'
      else String c (sub_comment false s')
  end.

(** [re.sub('\s+', '', line)] *)
Fixpoint remove_spaces (s : string) : string :=
  match s with
  | EmptyString => EmptyString
  | String c s' =>
      if isspace c then remove_spaces s' else String c (remove_spaces s')
  end.

(** The cleaning that [advance] applies to a line. The white space is
    removed while [re.match('\s+', line)] holds, and [re.match] looks
    only at the start of the line. *)
Definition clean (raw : string) : string :=
  let line := sub_comment false raw in
  match line with
  | String c _ => if isspace c then remove_spaces line else line
  | EmptyString => line
  end.

(** The loop [while parser.advance(): ...], as the list of the values of
    [_line] that the successive calls of [advance] leave in the parser.
    The file is the list of the lines [readline] returns. *)
Fixpoint advance (f : list string) : list string :=
  match f with
  | [] => []
  | raw :: f' =>
      if String.eqb raw "" then []
      else let line := clean raw in
           if String.eqb line "" then advance f' else line :: advance f'
  end.

(** Where [$] matches: at the end of the string, and before a newline
    that ends the string. *)
Definition at_end (s : string) : bool :=
  (String.eqb s "" || String.eqb s (String newline ""))%bool.

(** The pattern [.*$] at the start of [s]: the characters before the
    first newline, when [$] matches after them. *)
Fixpoint dot_star_end (s : string) : option string :=
  match s with
  | EmptyString => Some EmptyString
  | String c s' =>
      if Ascii.eqb c newline
      then if String.eqb s' "" then Some EmptyString else None
      else String c <$> dot_star_end s'
  end.

(** The pattern [.+$], likewise. *)
Definition dot_plus_end (s : string) : option string :=
  match dot_star_end s with
  | Some (String c b) => Some (String c b)
  | _ => None
  end.

(** [s] without its last character, when that is [c]. *)
Fixpoint before_last (c : ascii) (s : string) : option string :=
  match s with
  | EmptyString => None
  | String d EmptyString => if Ascii.eqb d c then Some EmptyString else None
  | String d s' => String d <$> before_last c s'
  end.

(** [re.match(r'^@(.+)$', line)], as its group 1. *)
Definition match_A (line : string) : option string :=
  match line with
  | String "@"%char s => dot_plus_end s
  | _ => None
  end.

(** [re.match(r'^\((.+)\)$', line)], as its group 1: the greedy [.+]
    leaves the last character of the line to [\)]. *)
Definition match_L (line : string) : option string :=
  match line with
  | String "("%char s =>
      match dot_star_end s ≫= before_last ")"%char with
      | Some (String c b) => Some (String c b)
      | _ => None
      end
  | _ => None
  end.

(** [re.match('^(?:(?:X)sep(?:Y))$', line)] for alternations [X], [Y] of
    literals. *)
Definition match_pair (xs : list string) (sep : string) (ys : list string)
    (line : string) : bool :=
  existsb (λ x, existsb (λ y,
    existsb (λ e, String.eqb line (x +:+ sep +:+ y +:+ e))
            [""; String newline ""]) ys) xs.

(** [re.match('^(X)sep', line)], as its group 1: the first alternative of
    [X] that [sep] follows. *)
Definition match_head (xs : list string) (sep : string) (line : string)
  : option string :=
  find (λ x, startswith (x +:+ sep) line) xs.

(** [re.search('pre(X)$', line)], as its group 1: at the leftmost
    position where one fits, the first alternative of [X] that comes
    after [pre] and that [$] follows. *)
Fixpoint search_tail (pre : string) (xs : list string) (line : string)
  : option string :=
  match find (λ x, existsb (λ e, String.eqb line (pre +:+ x +:+ e))
                           [""; String newline ""]) xs with
  | Some x => Some x
  | None =>
      match line with
      | EmptyString => None
      | String _ line' => search_tail pre xs line'
      end
  end.

(** The truth value of a match object. *)
Definition matched (m : option string) : bool :=
  match m with Some _ => true | None => false end.

Definition commandType (line : string) : command_type :=
  if matched (match_A line) then A_COMMAND
  else if (match_pair DEST "=" COMP line || match_pair COMP ";" JUMP line)%bool
  then C_COMMAND
  else if matched (match_L line) then L_COMMAND
  else U_COMMAND.

Definition symbol (line : string) : option string :=
  match match_A line, match_L line with
  | Some s, _ => Some s
  | None, Some s => Some s
  | None, None => None
  end.

Definition dest (line : string) : option string := match_head DEST "=" line.

Definition comp (line : string) : option string :=
  match match_head COMP ";" line, search_tail "=" COMP line with
  | Some c, _ => Some c
  | None, Some c => Some c
  | None, None => None
  end.

Definition jump (line : string) : option string := search_tail "" JUMP line.

(** *** Code *)

Module Code.

Definition dest (mnemonic : option string) : option string :=
  match mnemonic with
  | None => Some "000"
  | Some s =>
      if String.eqb "M" s then Some "001"
      else if String.eqb "D" s then Some "010"
      else if String.eqb "MD" s then Some "011"
      else if String.eqb "A" s then Some "100"
      else if String.eqb "AM" s then Some "101"
      else if String.eqb "AD" s then Some "110"
      else if String.eqb "AMD" s then Some "111"
      else None
  end.

Definition comp (mnemonic : option string) : option string :=
  match mnemonic with
  | None => None
  | Some s =>
      if String.eqb "0" s then Some "0101010"
      else if String.eqb "1" s then Some "0111111"
      else if String.eqb "-1" s then Some "0111010"
      else if String.eqb "D" s then Some "0001100"
      else if String.eqb "A" s then Some "0110000"
      else if String.eqb "!D" s then Some "0001101"
      else if String.eqb "!A" s then Some "0110001"
      else if String.eqb "-D" s then Some "0001111"
      else if String.eqb "-A" s then Some "0110011"
      else if String.eqb "D+1" s then Some "0011111"
      else if String.eqb "A+1" s then Some "0110111"
      else if String.eqb "D-1" s then Some "0001110"
      else if String.eqb "A-1" s then Some "0110010"
      else if String.eqb "D+A" s then Some "0000010"
      else if String.eqb "D-A" s then Some "0010011"
      else if String.eqb "A-D" s then Some "0000111"
      else if String.eqb "D&A" s then Some "0000000"
      else if String.eqb "D|A" s then Some "0010101"
      else if String.eqb "M" s then Some "1110000"
      else if String.eqb "!M" s then Some "1110001"
      else if String.eqb "-M" s then Some "1110011"
      else if String.eqb "M+1" s then Some "1110111"
      else if String.eqb "M-1" s then Some "1110010"
      else if String.eqb "D+M" s then Some "1000010"
      else if String.eqb "D-M" s then Some "1010011"
      else if String.eqb "M-D" s then Some "1000111"
      else if String.eqb "D&M" s then Some "1000000"
      else if String.eqb "D|M" s then Some "1010101"
      else None
  end.

Definition jump (mnemonic : option string) : option string :=
  match mnemonic with
  | None => Some "000"
  | Some s =>
      if String.eqb "JGT" s then Some "001"
      else if String.eqb "JEQ" s then Some "010"
      else if String.eqb "JGE" s then Some "011"
      else if String.eqb "JLT" s then Some "100"
      else if String.eqb "JNE" s then Some "101"
      else if String.eqb "JLE" s then Some "110"
      else if String.eqb "JMP" s then Some "111"
      else None
  end.

End Code.

(** *** SymbolTable *)

Module SymbolTable.

Definition init : gmap string Z :=
  foldl (λ table i, <["R" +:+ str i := i]> table)
        (list_to_map [("SP", 0); ("LCL", 1); ("ARG", 2); ("THIS", 3);
                      ("THAT", 4); ("SCREEN", 16384); ("KBD", 24576)])
        (seqZ 0 16).

Definition addEntry (symbol : string) (address : Z)
    (table : gmap string Z) : gmap string Z :=
  <[symbol := address]> table.

Definition contains (symbol : string) (table : gmap string Z) : bool :=
  bool_decide (is_Some (table !! symbol)).

Definition getAddress (symbol : string) (table : gmap string Z)
  : result Z :=
  match table !! symbol with
  | Some address => Ok address
  | None => Raise KeyError
  end.

End SymbolTable.

(** *** dec2bin *)

Fixpoint bin_pos (p : positive) : string :=
  match p with
  | xH => "1"
  | xO p' => bin_pos p' +:+ "0"
  | xI p' => bin_pos p' +:+ "1"
  end.

(** [bin(n)] *)
Definition bin (n : Z) : string :=
  match n with
  | Z0 => "0b0"
  | Zpos p => "0b" +:+ bin_pos p
  | Zneg p => "-0b" +:+ bin_pos p
  end.

Definition is_bit (c : ascii) : bool :=
  (Ascii.eqb c "0"%char || Ascii.eqb c "1"%char)%bool.

Fixpoint all_bits (s : string) : bool :=
  match s with
  | EmptyString => true
  | String c s' => (is_bit c && all_bits s')%bool
  end.

Fixpoint drop_chars (n : nat) (s : string) : string :=
  match n, s with
  | S n', String _ s' => drop_chars n' s'
  | _, _ => s
  end.

(** [re.search('^0b[01]*?([01]{,15}$)', s)], as its group 1, for a
    string without newline (as [bin] returns): after [0b] there are only
    binary digits, the lazy star takes as few of them as leaves at most
    15 to the group. *)
Definition search_low_bits (s : string) : option string :=
  match s with
  | String "0"%char (String "b"%char digits) =>
      if all_bits digits
      then Some (drop_chars (String.length digits - 15) digits)
      else None
  | _ => None
  end.

(** [n * '0'] *)
Definition zeros (n : nat) : string :=
  foldr String EmptyString (replicate n "0"%char).

(** A value that is a [str] or an [int], as the variable [symbol] of
    [main] is. *)
Inductive value : Type :=
| Str (s : string)
| Int (n : Z).

Definition to_int (v : value) : result Z :=
  match v with
  | Str s => Py.int s
  | Int n => Ok n
  end.

Definition dec2bin (nbr : value) : result (option string) :=
  n ← to_int nbr;
  match search_low_bits (bin n) with
  | Some group =>
      let preprend := (15 - String.length group)%nat in
      Ok (Some (zeros preprend +:+ group))
  | None => Ok None
  end.

(** *** main *)

(** [a + b] where [a] is a [str]: [TypeError] when [b] is [None]. *)
Definition concat (a : string) (b : option string) : result string :=
  match b with
  | Some b => Ok (a +:+ b)
  | None => Raise TypeError
  end.

(** The first pass over the commands of the file. A label command binds
    its symbol to [romAddr]; every other command increments [romAddr].
    ([symbol] returns a string for every [L_COMMAND], see
    [symbol_of_L_COMMAND].) *)
Fixpoint first_pass (commands : list string) (romAddr : Z)
    (symbolTable : gmap string Z) : Z * gmap string Z :=
  match commands with
  | [] => (romAddr, symbolTable)
  | line :: commands' =>
      if decide (L_COMMAND = commandType line) then
        first_pass commands' romAddr
          match symbol line with
          | Some name => SymbolTable.addEntry name romAddr symbolTable
          | None => symbolTable
          end
      else first_pass commands' (romAddr + 1) symbolTable
  end.

(** What the second pass keeps between two commands. *)
Record pass2 : Type := mkPass2 {
  ramAddr : Z;
  symbolTable : gmap string Z;
  hackfile : list string
}.

(** [re.match(r'\D+', symbol)]: the symbol starts with a character that
    is not a digit. *)
Definition match_nondigits (symbol : string) : bool :=
  match symbol with
  | String c _ => negb (isdigit c)
  | EmptyString => false
  end.

(** The body of the loop of the second pass. [hackstr] stays empty for
    a command that is neither a [C_COMMAND] nor an [A_COMMAND], and an
    empty [hackstr] is not written. *)
Definition second_pass_command (line : string) (st : pass2) : result pass2 :=
  let write (hackstr : string) (st : pass2) : pass2 :=
    if String.eqb hackstr "" then st
    else mkPass2 (ramAddr st) (symbolTable st) (hackfile st ++ [hackstr]) in
  if decide (C_COMMAND = commandType line) then
    let comp := comp line in
    let dest := dest line in
    let jump := jump line in
    h ← concat "111" (Code.comp comp);
    h ← concat h (Code.dest dest);
    hackstr ← concat h (Code.jump jump);
    Ok (write hackstr st)
  else if decide (A_COMMAND = commandType line) then
    match symbol line with
    | Some symbol =>
        '(symbol, st) ←
          (if match_nondigits symbol then
             if SymbolTable.contains symbol (symbolTable st) then
               address ← SymbolTable.getAddress symbol (symbolTable st);
               Ok (Int address, st)
             else
               Ok (Int (ramAddr st),
                   mkPass2 (ramAddr st + 1)
                     (SymbolTable.addEntry symbol (ramAddr st) (symbolTable st))
                     (hackfile st))
           else Ok (Str symbol, st));
        bits ← dec2bin symbol;
        hackstr ← concat "0" bits;
        Ok (write hackstr st)
    | None => Raise TypeError
    end
  else Ok (write "" st).

Fixpoint second_pass (commands : list string) (st : pass2) : result pass2 :=
  match commands with
  | [] => Ok st
  | line :: commands' =>
      st ← second_pass_command line st;
      second_pass commands' st
  end.

(** [main] on the content of the input file: the lines written to the
    [.hack] file and the final symbol table. The file is read once by
    each pass. *)
Definition main (asmfile : list string)
  : result (list string * gmap string Z) :=
  let '(_, labels) := first_pass (advance asmfile) 0 SymbolTable.init in
  st ← second_pass (advance asmfile) (mkPass2 16 labels []);
  Ok (hackfile st, symbolTable st).

(** *** The vocabulary of the specification *)

Definition bit_char (b : bool) : ascii := if b then "1"%char else "0"%char.

(** The [w]-bit unsigned binary encoding of the low [w] bits of [n],
    most significant bit first. *)
Fixpoint binary (w : nat) (n : Z) : string :=
  match w with
  | O => EmptyString
  | S w' => String (bit_char (Z.testbit n (Z.of_nat w'))) (binary w' n)
  end.

(** The number that a string of binary digits denotes, after [acc]. *)
Fixpoint bits_value (acc : Z) (s : string) : Z :=
  match s with
  | EmptyString => acc
  | String c s' =>
      bits_value (2 * acc + (if Ascii.eqb c "1"%char then 1 else 0)) s'
  end.



(** The tables of the specification: a mnemonic, or its absence, and its
    bits. *)
Definition dest_table : list (option string * string) :=
  [(None, "000"); (Some "M", "001"); (Some "D", "010"); (Some "MD", "011");
   (Some "A", "100"); (Some "AM", "101"); (Some "AD", "110");
   (Some "AMD", "111")].

Definition comp_table : list (string * string) :=
  [("0", "0101010"); ("1", "0111111"); ("-1", "0111010"); ("D", "0001100");
   ("A", "0110000"); ("!D", "0001101"); ("!A", "0110001"); ("-D", "0001111");
   ("-A", "0110011"); ("D+1", "0011111"); ("A+1", "0110111");
   ("D-1", "0001110"); ("A-1", "0110010"); ("D+A", "0000010");
   ("D-A", "0010011"); ("A-D", "0000111"); ("D&A", "0000000");
   ("D|A", "0010101"); ("M", "1110000"); ("!M", "1110001"); ("-M", "1110011");
   ("M+1", "1110111"); ("M-1", "1110010"); ("D+M", "1000010");
   ("D-M", "1010011"); ("M-D", "1000111"); ("D&M", "1000000");
   ("D|M", "1010101")].

Definition jump_table : list (option string * string) :=
  [(None, "000"); (Some "JGT", "001"); (Some "JEQ", "010");
   (Some "JGE", "011"); (Some "JLT", "100"); (Some "JNE", "101");
   (Some "JLE", "110"); (Some "JMP", "111")].

Fixpoint assoc {K : Type} `{EqDecision K} (k : K) (table : list (K * string))
  : option string :=
  match table with
  | [] => None
  | (k', bits) :: table' => if decide (k = k') then Some bits else assoc k table'
  end.

(** The text of the C-instruction with the fields [d], [c] and [j]. *)
Definition instruction_text (d : option string) (c : string)
    (j : option string) : string :=
  match d with Some d => d +:+ "=" | None => "" end
  +:+ c
  +:+ match j with Some j => ";" +:+ j | None => "" end.

(** Every line that [commandType] takes for a [C_COMMAND], with its
    fields: the lines that one of the two patterns matches, built as
    [match_pair] compares them. *)
Definition C_lines : list (string * (option string * string * option string)) :=
  (d ← DEST; c ← COMP; e ← [""; String newline ""];
   [(d +:+ "=" +:+ c +:+ e, (Some d, c, None))])
  ++ (c ← COMP; j ← JUMP; e ← [""; String newline ""];
      [(c +:+ ";" +:+ j +:+ e, (None, c, Some j))]).

(** What is checked of each of these lines: the parser returns its
    fields, and [Code] returns for them the bits of the tables, 7 for comp
    and 3 for dest and for jump. *)
Definition C_line_ok (lf : string * (option string * string * option string))
  : Prop :=
  let '(line, (d, c, j)) := lf in
  (line = instruction_text d c j
   ∨ line = instruction_text d c j +:+ String newline "")
  ∧ comp line = Some c ∧ dest line = d ∧ jump line = j
  ∧ is_Some (assoc c comp_table)
  ∧ is_Some (assoc d dest_table)
  ∧ is_Some (assoc j jump_table)
  ∧ Code.comp (Some c) = assoc c comp_table
  ∧ Code.dest d = assoc d dest_table
  ∧ Code.jump j = assoc j jump_table
  ∧ String.length (default "" (assoc c comp_table)) = 7%nat
  ∧ String.length (default "" (assoc d dest_table)) = 3%nat
  ∧ String.length (default "" (assoc j jump_table)) = 3%nat
  ∧ all_bits (default "" (assoc c comp_table)
              +:+ default "" (assoc d dest_table)
              +:+ default "" (assoc j jump_table)) = true.

Global Instance C_line_ok_dec lf : Decision (C_line_ok lf).
Proof. destruct lf as [line [[d c] j]]. unfold C_line_ok. apply _. Defined.

(** A real instruction, which occupies an address of the ROM. *)
Definition is_instruction (line : string) : Prop :=
  commandType line = A_COMMAND ∨ commandType line = C_COMMAND.

Global Instance is_instruction_dec line : Decision (is_instruction line).
Proof. unfold is_instruction. apply _. Defined.

(** The number of real instructions among [before]: the ROM address of
    the instruction that comes next. *)
Definition instruction_count (before : list string) : nat :=
  length (filter is_instruction before).


(** The names that the label lines declare, and the symbols that the
    A-instructions refer to, in the order of the program. *)
Definition label_names (commands : list string) : list string :=
  omap (λ line, if decide (commandType line = L_COMMAND) then symbol line
                else None) commands.



(** The distinct elements of a list, in the order of their first
    appearance. *)
Fixpoint first_occurrences (l : list string) : list string :=
  match l with
  | [] => []
  | x :: l' => x :: filter (λ y, y ≠ x) (first_occurrences l')
  end.

(** The variables of a program: the symbols of its A-instructions that
    are no numerals and that [labels], the table of the first pass, does
    not bind, in the order of their first appearance. *)
Definition is_variable (labels : gmap string Z) (s : string) : Prop :=
  match_nondigits s = true ∧ labels !! s = None.

Global Instance is_variable_dec labels s : Decision (is_variable labels s).
Proof. unfold is_variable. apply _. Defined.




End Assembler.

(** * Properties of the VM translator *)

Section VMtranslator_properties.
Import Py VMtranslator.

Lemma write_cw_f ret self : cw_f (write ret self) = cw_f self ++ ret.
Proof. reflexivity. Qed.

Lemma method_call_ret_counter self self' :
  method_call self self' → ret_counter self ≤ ret_counter self'.
Proof.
  destruct 1; try reflexivity.
  - unfold writeArithmetic. repeat case_match; simplify_eq; try reflexivity.
    unfold lteqgt in *. simplify_eq. reflexivity.
  - unfold ret_counter; simpl. destruct (retAddrCnt self); lia.
  - unfold writePushPop. case_decide; reflexivity.
  - unfold ret_counter; simpl. destruct (retAddrCnt self); lia.
Qed.

Lemma method_call_cmp_counter self self' :
  method_call self self' → cmp_counter self ≤ cmp_counter self'.
Proof.
  destruct 1; try reflexivity.
  - unfold writeArithmetic. repeat case_match; simplify_eq; try reflexivity.
    unfold lteqgt in *. simplify_eq. unfold cmp_counter; simpl. lia.
  - unfold writePushPop. case_decide; reflexivity.
Qed.

Lemma rtc_ret_counter self self' :
  rtc method_call self self' → ret_counter self ≤ ret_counter self'.
Proof.
  induction 1 as [|x y z Hxy _ IH]; [lia|].
  apply method_call_ret_counter in Hxy. lia.
Qed.

Lemma rtc_cmp_counter self self' :
  rtc method_call self self' → cmp_counter self ≤ cmp_counter self'.
Proof.
  induction 1 as [|x y z Hxy _ IH]; [lia|].
  apply method_call_cmp_counter in Hxy. lia.
Qed.

Lemma str_inj (m n : Z) : str m = str n → m = n.
Proof. apply (inj pretty). Qed.

(** The main loop drives the writer by method calls only. *)
Lemma translate_command_method_call line self self' :
  translate_command line self = Ok self' → method_call self self'.
Proof.
  unfold translate_command, mbind, result_bind.
  intros H. repeat case_match; simplify_eq; constructor.
Qed.

Lemma translate_rtc commands self self' :
  translate commands self = Ok self' → rtc method_call self self'.
Proof.
  revert self. induction commands as [|[line nbr] commands IH]; intros self H.
  - simpl in H. by simplify_eq.
  - simpl in H. unfold mbind, result_bind in H.
    destruct (translate_command line self) as [self1|] eqn:H1; [|done].
    eapply rtc_l; [by eapply translate_command_method_call|by apply IH].
Qed.

(** C1: [call f n] emits the push of the return label [f$returnAddr<k>],
    the pushes of LCL, ARG, THIS and THAT, ARG = SP - n - 5 (without the
    subtraction of [n] exactly when [n] is 0), LCL = SP, the jump to [f]
    and the declaration of the return label, in this order; [k] is the
    value of [ret_counter], which the call increments, so that the
    return label of any later call has another suffix. *)
Theorem writeCall_emits (f : string) (n : Z) (self : CodeWriter) :
  let k := ret_counter self in
  let label := f +:+ "$returnAddr" +:+ str k in
  cw_f (writeCall f n self) =
    cw_f self
    ++ ["// call " +:+ f +:+ " " +:+ str n]
    ++ ["@" +:+ label; "D=A"; "@SP"; "A=M"; "M=D"; "@SP"; "M=M+1"]
    ++ ["// push LCL"; "@LCL"; "D=M"; "@SP"; "A=M"; "M=D"; "@SP"; "M=M+1"]
    ++ ["// push ARG"; "@ARG"; "D=M"; "@SP"; "A=M"; "M=D"; "@SP"; "M=M+1"]
    ++ ["// push THIS"; "@THIS"; "D=M"; "@SP"; "A=M"; "M=D"; "@SP"; "M=M+1"]
    ++ ["// push THAT"; "@THAT"; "D=M"; "@SP"; "A=M"; "M=D"; "@SP"; "M=M+1"]
    ++ ["// ARG = SP-numArgs-5"; "@SP"; "D=M"]
    ++ (if decide (n = 0) then [] else ["@" +:+ str n; "D=D-A"])
    ++ ["@5"; "D=D-A"; "@ARG"; "M=D"]
    ++ ["// LCL = SP"; "@SP"; "D=M"; "@LCL"; "M=D"]
    ++ ["// goto " +:+ f; "@" +:+ f; "0;JMP"]
    ++ ["// declare label for the return address"; "(" +:+ label +:+ ")"]
  ∧ ret_counter (writeCall f n self) = k + 1
  ∧ ∀ later : CodeWriter,
      rtc method_call (writeCall f n self) later →
      str (ret_counter later) ≠ str k
      ∧ f +:+ "$returnAddr" +:+ str (ret_counter later) ≠ label.
Proof.
  intros k label. split; [|split].
  - unfold writeCall. rewrite write_cw_f. simpl cw_f. f_equal.
    fold k. fold label.
    destruct (decide (n = 0)) as [->|Hn].
    + reflexivity.
    + destruct (decide (0 ≠ n)) as [_|[]]; [reflexivity|congruence].
  - unfold ret_counter at 1. simpl. reflexivity.
  - intros later Hlater. apply rtc_ret_counter in Hlater.
    assert (ret_counter (writeCall f n self) = k + 1) as Hk by reflexivity.
    assert (str (ret_counter later) ≠ str k) as Hne.
    { intros Heq%str_inj. lia. }
    split; [exact Hne|].
    intros Heq. apply Hne.
    unfold label in Heq.
    apply (inj (String.app f)) in Heq.
    by apply (inj (String.app "$returnAddr")) in Heq.
Qed.

(** C6: each of [eq], [gt] and [lt] emits, after the binary prologue,
    D=M-D, then M=-1, then the jump D;JEQ, D;JGT or D;JLT to the label
    EQ<k>, GT<k> or LT<k>, then the reset of the stack top to 0, then the
    declaration of the label; [k] is the value of [cmp_counter], which
    the command increments, so that every later comparison of the
    translation uses another label. *)
Theorem comparison_emits (self : CodeWriter) :
  let k := cmp_counter self in
  let code (command NAME : string) : list string :=
    ["// " +:+ command]
    ++ ["@SP"; "M=M-1"; "A=M"; "D=M"; "@SP"; "M=M-1"; "A=M"]
    ++ ["D=M-D"; "M=-1"; "@" +:+ NAME +:+ str k; "D;J" +:+ NAME]
    ++ ["@SP"; "A=M"; "M=0"]
    ++ ["(" +:+ NAME +:+ str k +:+ ")"]
    ++ ["@SP"; "M=M+1"] in
  let labels (k : Z) : list string :=
    ["EQ" +:+ str k; "GT" +:+ str k; "LT" +:+ str k] in
  (cw_f (writeArithmetic "eq" self) = cw_f self ++ code "eq" "EQ"
   ∧ cw_f (writeArithmetic "gt" self) = cw_f self ++ code "gt" "GT"
   ∧ cw_f (writeArithmetic "lt" self) = cw_f self ++ code "lt" "LT")
  ∧ (∀ command, command ∈ ["eq"; "gt"; "lt"] →
     cmp_counter (writeArithmetic command self) = k + 1
     ∧ ∀ later : CodeWriter,
         rtc method_call (writeArithmetic command self) later →
         ∀ l l', l ∈ labels k → l' ∈ labels (cmp_counter later) → l ≠ l').
Proof.
  intros k code labels. split; [by repeat split|].
  intros command Hc.
  assert (cmp_counter (writeArithmetic command self) = k + 1) as Hk.
  { set_unfold in Hc. by destruct Hc as [->|[->|[->|[]]]]. }
  split; [exact Hk|].
  intros later Hlater%rtc_cmp_counter l l' Hl Hl'.
  assert (str k ≠ str (cmp_counter later)) as Hne.
  { intros Heq%str_inj. lia. }
  unfold labels in *. set_unfold in Hl. set_unfold in Hl'.
  intros Heq. apply Hne.
  destruct Hl as [->|[->|[->|[]]]]; destruct Hl' as [->|[->|[->|[]]]];
    cbv [String.app String.append] in Heq; by simplify_eq.
Qed.

Lemma assigns_D_A_plus (n : nat) :
  Forall (λ line, assigns_D line = false) (replicate n "A=A+1").
Proof. induction n; constructor; [reflexivity|assumption]. Qed.

Lemma filter_A_plus (P : string → Prop) `{!∀ x, Decision (P x)} (n : nat) :
  ¬ P "A=A+1" → filter P (replicate n "A=A+1") = [].
Proof.
  intros HP. induction n as [|n IH]; [reflexivity|].
  simpl. rewrite filter_cons_False by done. exact IH.
Qed.

Lemma filter_A_plus_all (n : nat) :
  filter (λ line : string, line = "A=A+1") (replicate n "A=A+1")
  = replicate n "A=A+1".
Proof.
  induction n as [|n IH]; [reflexivity|].
  simpl. rewrite filter_cons_True by done. by rewrite IH.
Qed.

(** C10: a [pop] to [argument], [local], [this] or [that] with index [n]
    decrements SP and loads the popped value into D, and only then
    addresses the target: the base pointer is dereferenced by A=M, which
    exactly [n] instructions A=A+1 follow, before the final M=D. No
    instruction of the addressing assigns to D, the only A-instructions
    are [@SP] and that of the base pointer, no D=D+A occurs, and the
    number of emitted lines is [n + 8]. *)
Theorem pop_indirect_emits (segment base : string) (n : Z)
    (self : CodeWriter) :
  (segment, base) ∈ [("argument", "ARG"); ("local", "LCL");
                     ("this", "THIS"); ("that", "THAT")] →
  0 ≤ n →
  let load := ["// pop " +:+ segment +:+ " " +:+ str n;
               "@SP"; "M=M-1"; "A=M"; "D=M"] in
  let addressing := ["@" +:+ base; "A=M"] ++ replicate (Z.to_nat n) "A=A+1" in
  let emitted := load ++ addressing ++ ["M=D"] in
  cw_f (writePushPop C_POP segment n self) = cw_f self ++ emitted
  ∧ Z.of_nat (length (filter (λ line, line = "A=A+1") emitted)) = n
  ∧ Forall (λ line, assigns_D line = false) (addressing ++ ["M=D"])
  ∧ filter (λ line, startswith "@" line = true) emitted = ["@SP"; "@" +:+ base]
  ∧ ("D=D+A" ∉ emitted)
  ∧ Z.of_nat (length emitted) = n + 8.
Proof.
  intros Hseg Hn load addressing emitted.
  assert ((segment = "argument" ∧ base = "ARG")
          ∨ (segment = "local" ∧ base = "LCL")
          ∨ (segment = "this" ∧ base = "THIS")
          ∨ (segment = "that" ∧ base = "THAT")) as Hcases.
  { set_unfold in Hseg.
    destruct Hseg as [Heq|[Heq|[Heq|[Heq|[]]]]]; injection Heq as -> ->; tauto. }
  assert (Z.of_nat (length (replicate (Z.to_nat n) "A=A+1")) = n) as Hlen.
  { rewrite length_replicate. lia. }
  unfold emitted, addressing, load.
  destruct Hcases as [[-> ->]|[[-> ->]|[[-> ->]|[-> ->]]]].
  all: split; [reflexivity|].
  all: split; [rewrite !filter_app, filter_A_plus_all;
               repeat (rewrite filter_cons_False
                         by (cbv [String.app String.append]; discriminate));
               rewrite !filter_nil, app_nil_r; exact Hlen|].
  all: split; [rewrite <- !app_assoc;
               repeat (apply Forall_app; split);
               try apply assigns_D_A_plus; repeat constructor|].
  all: split; [rewrite !filter_app, filter_A_plus by done; reflexivity|].
  all: split; [rewrite !elem_of_app, elem_of_replicate; set_unfold;
               cbv [String.app String.append]; intuition discriminate|].
  all: rewrite !length_app; simpl; lia.
Qed.

Lemma pop_indirect_emits_witness :
  cw_f (writePushPop C_POP "local" 3 (init "X.asm"))
  = ["// pop local 3"; "@SP"; "M=M-1"; "A=M"; "D=M";
     "@LCL"; "A=M"; "A=A+1"; "A=A+1"; "A=A+1"; "M=D"].
Proof.
  refine (proj1 (pop_indirect_emits "local" "LCL" 3 (init "X.asm") _ _)).
  - set_solver.
  - lia.
Defined.

(** C3, as stated, fails: [setFileName] does not leave
    [current_function] unchanged. After [function Foo.main 0], the
    switch to the file [Bar.vm] makes [Bar] the current function. *)
Lemma setFileName_changes_current_function :
  ¬ (∀ (fileName : string) (self : CodeWriter),
       current_function (setFileName fileName self) = current_function self).
Proof.
  intros H.
  specialize (H "Bar.vm" (writeFunction "Foo.main" 0 (writeInit (init "Foo.asm")))).
  vm_compute in H. discriminate H.
Qed.

(** C3, amended: the translation of every input file after the first
    starts with [setFileName] (the first starts with the creation of the
    writer and the bootstrap). [setFileName] leaves [cmp_counter],
    [ret_counter] and the text written so far unchanged; it sets
    [file_short_name] from the path of the file alone, and resets
    [current_function] to the new [file_short_name]. *)
Theorem setFileName_effect (fileName : string) (self : CodeWriter) :
  let self' := setFileName fileName self in
  cmp_counter self' = cmp_counter self
  ∧ ret_counter self' = ret_counter self
  ∧ cw_f self' = cw_f self
  ∧ (∀ other, file_short_name (setFileName fileName other) = file_short_name self')
  ∧ current_function self' = file_short_name self'
  ∧ (∀ outputFileName content fileList,
       translate_files outputFileName ((fileName, content) :: fileList) (Some self)
       = (codeWriter ← translate (advance content 1) self';
          translate_files outputFileName fileList (Some codeWriter))
       ∧ translate_files outputFileName ((fileName, content) :: fileList) None
         = (codeWriter ← translate (advance content 1)
                            (writeInit (init outputFileName));
            translate_files outputFileName fileList (Some codeWriter))).
Proof. by repeat split. Qed.

(** C4 at a failing input: in the directory [prog], the static variables
    of [Prom.vm] are emitted under the name [Pro], which is what
    [rstrip('.vm')] leaves of [Prom.vm]; no symbol starts with [Prom.]. *)
Lemma static_symbol_of_Prom_vm :
  ∃ codeWriter,
    main (Directory "prog"
            [("Main.vm", file_of ["function Main.main 0"; "push static 0"]);
             ("Prom.vm", file_of ["push static 0"; "pop static 1"])])
    = Ok codeWriter
    ∧ file_short_name (setFileName "prog/Prom.vm" codeWriter) = "Pro"
    ∧ filter (λ line, startswith "@Pro" line = true) (cw_f codeWriter)
      = ["@Pro.0"; "@Pro.1"].
Proof. eexists. split; [vm_compute; reflexivity|]. by vm_compute. Qed.

(** C8 at a failing input: the unknown command [foo] ends the
    translation with [NameError] for the name [element], raised while the
    argument of [print] is evaluated: neither the diagnostic nor
    [sys.exit(1)] is reached. A first token that only starts with an
    opcode, as [addfoo], is not rejected. *)
Lemma unknown_command_raises_NameError :
  main (File "X.vm" (file_of ["push constant 1"; "foo"]))
  = Raise (NameError "element")
  ∧ commandType "addfoo" = Ok C_ARITHMETIC
  ∧ advance (file_of ["push constant 1"; ""; "foo"]) 1
    = [("push constant 1", 1); ("foo", 2)].
Proof. by vm_compute. Qed.

End VMtranslator_properties.

(** * Properties of the assembler *)

Section Assembler_properties.
Import Py Assembler.

Lemma append_cons (c : ascii) (s t : string) :
  String c s +:+ t = String c (s +:+ t).
Proof. reflexivity. Qed.

Lemma append_nil_r (s : string) : s +:+ "" = s.
Proof.
  induction s as [|c s IH]; [reflexivity|]. by rewrite append_cons, IH.
Qed.

Lemma append_assoc (s t u : string) : (s +:+ t) +:+ u = s +:+ t +:+ u.
Proof.
  induction s as [|c s IH]; [reflexivity|]. by rewrite !append_cons, IH.
Qed.

Lemma length_append (s t : string) :
  String.length (s +:+ t) = (String.length s + String.length t)%nat.
Proof.
  induction s as [|c s IH]; [reflexivity|].
  rewrite append_cons. simpl. by rewrite IH.
Qed.

(** **** Binary numerals *)

Lemma length_binary (w : nat) (n : Z) : String.length (binary w n) = w.
Proof. induction w as [|w IH]; [reflexivity|]. simpl. by rewrite IH. Qed.

Lemma all_bits_binary (w : nat) (n : Z) : all_bits (binary w n) = true.
Proof.
  induction w as [|w IH]; [reflexivity|].
  simpl. rewrite IH. by destruct (Z.testbit n (Z.of_nat w)).
Qed.

Lemma all_bits_append (s t : string) :
  all_bits (s +:+ t) = (all_bits s && all_bits t)%bool.
Proof.
  induction s as [|c s IH]; [reflexivity|].
  rewrite append_cons. simpl. rewrite IH. by rewrite andb_assoc.
Qed.

Lemma binary_shift (w : nat) (m : Z) (b : bool) :
  binary (S w) (2 * m + Z.b2z b) = binary w m +:+ String (bit_char b) "".
Proof.
  induction w as [|w IH].
  - cbn [binary]. change (Z.of_nat 0) with 0.
    by rewrite Z.testbit_0_r.
  - change (binary (S (S w)) (2 * m + Z.b2z b))
      with (String (bit_char (Z.testbit (2 * m + Z.b2z b) (Z.of_nat (S w))))
                   (binary (S w) (2 * m + Z.b2z b))).
    rewrite IH. rewrite Nat2Z.inj_succ, Z.testbit_succ_r by lia.
    reflexivity.
Qed.

Lemma bin_pos_binary (p : positive) :
  bin_pos p = binary (Pos.size_nat p) (Zpos p).
Proof.
  induction p as [p IH|p IH|].
  - change (Zpos p~1) with (2 * Zpos p + Z.b2z true).
    simpl Pos.size_nat. rewrite binary_shift, <- IH. reflexivity.
  - change (Zpos p~0) with (2 * Zpos p + Z.b2z false).
    simpl Pos.size_nat. rewrite binary_shift, <- IH. reflexivity.
  - reflexivity.
Qed.

Lemma pos_lt_size (p : positive) : Zpos p < 2 ^ Z.of_nat (Pos.size_nat p).
Proof.
  induction p as [p IH|p IH|]; simpl Pos.size_nat;
    rewrite ?Nat2Z.inj_succ, ?Z.pow_succ_r by lia; lia.
Qed.

Lemma testbit_above (n : Z) (w i : nat) :
  0 ≤ n < 2 ^ Z.of_nat w → (w ≤ i)%nat → Z.testbit n (Z.of_nat i) = false.
Proof.
  intros Hn Hi. apply Z.testbit_false; [lia|].
  rewrite Z.div_small; [reflexivity|].
  split; [lia|]. eapply Z.lt_le_trans; [apply Hn|].
  apply Z.pow_le_mono_r; lia.
Qed.

Lemma zeros_binary (k w : nat) (n : Z) :
  0 ≤ n < 2 ^ Z.of_nat w → zeros k +:+ binary w n = binary (k + w) n.
Proof.
  intros Hn. induction k as [|k IH]; [reflexivity|].
  change (zeros (S k)) with (String "0"%char (zeros k)).
  rewrite append_cons, IH. simpl.
  rewrite (testbit_above n w (k + w)) by (done || lia). reflexivity.
Qed.

Lemma drop_chars_binary (k w : nat) (n : Z) :
  drop_chars k (binary (k + w) n) = binary w n.
Proof. induction k as [|k IH]; [by destruct w|]. simpl. exact IH. Qed.

Lemma drop_chars_binary_le (w w' : nat) (n : Z) :
  (w' ≤ w)%nat → drop_chars (w - w') (binary w n) = binary w' n.
Proof.
  intros Hle. rewrite <- (drop_chars_binary (w - w') w' n).
  do 2 f_equal. lia.
Qed.

Lemma drop_chars_0 (s : string) : drop_chars 0 s = s.
Proof. by destruct s. Qed.

Lemma bits_value_binary (w : nat) (n acc : Z) :
  bits_value acc (binary w n) = acc * 2 ^ Z.of_nat w + n `mod` 2 ^ Z.of_nat w.
Proof.
  revert acc. induction w as [|w IH]; intros acc.
  - simpl. rewrite Z.mod_1_r. lia.
  - simpl binary. simpl bits_value. rewrite IH.
    rewrite Nat2Z.inj_succ, Z.pow_succ_r by lia.
    rewrite (Z.mul_comm 2 (2 ^ Z.of_nat w)).
    rewrite (Z.rem_mul_r n (2 ^ Z.of_nat w) 2) by lia.
    rewrite <- (Z.testbit_spec' n (Z.of_nat w)) by lia.
    destruct (Z.testbit n (Z.of_nat w)); simpl; lia.
Qed.

Lemma dec2bin_Int (n : Z) : 0 ≤ n → dec2bin (Int n) = Ok (Some (binary 15 n)).
Proof.
  intros Hn. destruct n as [|p|p]; [reflexivity| |lia].
  unfold dec2bin. simpl to_int.
  change (Ok (Z.pos p) ≫= ?k) with (k (Z.pos p)). cbv beta.
  change (bin (Z.pos p)) with (String "0"%char (String "b"%char (bin_pos p))).
  unfold search_low_bits.
  rewrite bin_pos_binary, all_bits_binary, length_binary.
  pose proof (pos_lt_size p) as Hp.
  destruct (decide (Pos.size_nat p ≤ 15)%nat) as [Hle|Hgt].
  - replace (Pos.size_nat p - 15)%nat with 0%nat by lia.
    rewrite drop_chars_0, length_binary, zeros_binary by lia.
    do 2 f_equal. f_equal. lia.
  - rewrite drop_chars_binary_le, length_binary by lia. reflexivity.
Qed.

Lemma dec2bin_negative (n : Z) : n < 0 → dec2bin (Int n) = Ok None.
Proof. intros Hn. destruct n as [|p|p]; [lia|lia|reflexivity]. Qed.

Lemma dec2bin_Str (s : string) (n : Z) :
  Py.int s = Ok n → dec2bin (Str s) = dec2bin (Int n).
Proof. intros H. unfold dec2bin. simpl to_int. by rewrite H. Qed.

(** **** Decimal numerals *)

Lemma isdigit_not_space (c : ascii) : isdigit c = true → isspace c = false.
Proof. by destruct c as [[] [] [] [] [] [] [] []]. Qed.






(** **** The second pass on one command *)

Lemma bind_Ok {A B : Type} (a : A) (k : A → result B) : (Ok a ≫= k) = k a.
Proof. reflexivity. Qed.


Lemma write_word (word : string) (st : pass2) :
  word ≠ "" →
  (if String.eqb word "" then st
   else mkPass2 (ramAddr st) (symbolTable st) (hackfile st ++ [word]))
  = mkPass2 (ramAddr st) (symbolTable st) (hackfile st ++ [word]).
Proof. intros H. by apply String.eqb_neq in H as ->. Qed.

(** What an [A_COMMAND] does when its address [n] is known: [symbol] is
    the value that reaches [dec2bin], [st1] the state after the lookup. *)
Lemma second_pass_A (line s : string) (st : pass2) :
  commandType line = A_COMMAND →
  symbol line = Some s →
  second_pass_command line st
  = ('(symbol, st1) ←
       (if match_nondigits s then
          if SymbolTable.contains s (symbolTable st) then
            address ← SymbolTable.getAddress s (symbolTable st);
            Ok (Int address, st)
          else
            Ok (Int (ramAddr st),
                mkPass2 (ramAddr st + 1)
                  (SymbolTable.addEntry s (ramAddr st) (symbolTable st))
                  (hackfile st))
        else Ok (Str s, st));
     bits ← dec2bin symbol;
     hackstr ← concat "0" bits;
     Ok (if String.eqb hackstr "" then st1
         else mkPass2 (ramAddr st1) (symbolTable st1) (hackfile st1 ++ [hackstr]))).
Proof.
  intros Ht Hs. unfold second_pass_command. rewrite Ht, Hs.
  destruct (decide (C_COMMAND = A_COMMAND)); [done|].
  destruct (decide (A_COMMAND = A_COMMAND)); [|done].
  reflexivity.
Qed.

Lemma emit_address (n : Z) (st1 : pass2) :
  0 ≤ n →
  (bits ← dec2bin (Int n);
   hackstr ← concat "0" bits;
   Ok (if String.eqb hackstr "" then st1
       else mkPass2 (ramAddr st1) (symbolTable st1) (hackfile st1 ++ [hackstr])))
  = Ok (mkPass2 (ramAddr st1) (symbolTable st1)
          (hackfile st1 ++ ["0" +:+ binary 15 n])).
Proof. intros Hn. by rewrite dec2bin_Int. Qed.

Lemma emit_address_negative (n : Z) (st1 : pass2) :
  n < 0 →
  (bits ← dec2bin (Int n);
   hackstr ← concat "0" bits;
   Ok (if String.eqb hackstr "" then st1
       else mkPass2 (ramAddr st1) (symbolTable st1) (hackfile st1 ++ [hackstr])))
  = Raise TypeError.
Proof. intros Hn. by rewrite dec2bin_negative. Qed.

(** C7: the word of an A-instruction is ['0'] followed by the 15-bit
    binary encoding, padded with zeros on the left, of the resolved
    address; of an address above 2^15 - 1 the low 15 bits are emitted;
    [@32767] is encoded as [0111111111111111]. *)
Theorem A_instruction_word :
  (∀ n : Z, 0 ≤ n → dec2bin (Int n) = Ok (Some (binary 15 n)))
  ∧ (∀ n : Z,
       String.length (binary 15 n) = 15%nat
       ∧ all_bits (binary 15 n) = true
       ∧ bits_value 0 (binary 15 n) = n `mod` 2 ^ 15)
  ∧ (∀ n : Z, 0 ≤ n ≤ 2 ^ 15 - 1 → bits_value 0 (binary 15 n) = n)
  ∧ (∀ (line : string) (st st' : pass2),
       commandType line = A_COMMAND →
       second_pass_command line st = Ok st' →
       ∃ (s : string) (address : Z),
         symbol line = Some s
         ∧ (if match_nondigits s then symbolTable st' !! s = Some address
            else Py.int s = Ok address)
         ∧ hackfile st' = hackfile st ++ ["0" +:+ binary 15 address])
  ∧ (∃ table, main (file_of ["@32767"]) = Ok (["0111111111111111"], table))
  ∧ dec2bin (Int 32768) = Ok (Some "000000000000000").
Proof.
  split; [exact dec2bin_Int|].
  split.
  { intros n. rewrite length_binary, all_bits_binary, bits_value_binary.
    repeat split. }
  split.
  { intros n Hn. rewrite bits_value_binary.
    change (Z.of_nat 15) with 15. rewrite Z.mod_small; lia. }
  split; [|split; [by eexists|reflexivity]].
  intros line st st' Ht Hstep.
  destruct (symbol line) as [s|] eqn:Hs.
  - exists s. rewrite (second_pass_A line s st Ht Hs) in Hstep.
    destruct (match_nondigits s).
    + unfold SymbolTable.contains, SymbolTable.getAddress in Hstep.
      destruct (symbolTable st !! s) as [a|] eqn:Hlook.
      * rewrite bool_decide_true in Hstep by eauto.
        rewrite !bind_Ok in Hstep. cbv beta iota in Hstep.
        destruct (decide (0 ≤ a)) as [Ha|Ha].
        -- rewrite emit_address in Hstep by done. simplify_eq.
           exists a. by repeat split.
        -- rewrite emit_address_negative in Hstep by lia. done.
      * rewrite bool_decide_false in Hstep by (by intros [? ?]).
        rewrite !bind_Ok in Hstep. cbv beta iota in Hstep.
        destruct (decide (0 ≤ ramAddr st)) as [Ha|Ha].
        -- rewrite emit_address in Hstep by done. simplify_eq.
           exists (ramAddr st). split; [done|]. split; [|done].
           simpl. unfold SymbolTable.addEntry. by rewrite lookup_insert_eq.
        -- rewrite emit_address_negative in Hstep by lia. done.
    + rewrite !bind_Ok in Hstep. cbv beta iota in Hstep.
      destruct (Py.int s) as [n|e] eqn:Hint.
      * rewrite (dec2bin_Str s n Hint) in Hstep.
        destruct (decide (0 ≤ n)) as [Hn|Hn].
        -- rewrite emit_address in Hstep by done. simplify_eq.
           exists n. by repeat split.
        -- rewrite emit_address_negative in Hstep by lia. done.
      * unfold dec2bin in Hstep. simpl to_int in Hstep.
        rewrite Hint in Hstep. done.
  - unfold second_pass_command in Hstep. rewrite Ht, Hs in Hstep.
    destruct (decide (C_COMMAND = A_COMMAND)); [done|].
    destruct (decide (A_COMMAND = A_COMMAND)); done.
Qed.

(** **** C-instructions *)

Lemma match_pair_C_lines (xs ys : list string) (sep line : string) :
  match_pair xs sep ys line = true →
  ∃ x y e, x ∈ xs ∧ y ∈ ys ∧ e ∈ [""; String newline ""]
           ∧ line = x +:+ sep +:+ y +:+ e.
Proof.
  unfold match_pair. intros H.
  apply existsb_exists in H as (x & Hx & H).
  apply existsb_exists in H as (y & Hy & H).
  apply existsb_exists in H as (e & He & H).
  apply String.eqb_eq in H.
  exists x, y, e. by rewrite <- !list_elem_of_In in *.
Qed.

Lemma commandType_C_lines (line : string) :
  commandType line = C_COMMAND → ∃ f, (line, f) ∈ C_lines.
Proof.
  unfold commandType. intros H.
  destruct (matched (match_A line)); [done|].
  destruct (match_pair DEST "=" COMP line) eqn:Hd.
  - apply match_pair_C_lines in Hd as (d & c & e & Hd & Hc & He & ->).
    exists (Some d, c, None). unfold C_lines.
    apply elem_of_app. left.
    apply list_elem_of_bind. exists d. split; [|done].
    apply list_elem_of_bind. exists c. split; [|done].
    apply list_elem_of_bind. exists e. split; [|done].
    by apply list_elem_of_singleton.
  - destruct (match_pair COMP ";" JUMP line) eqn:Hj.
    + apply match_pair_C_lines in Hj as (c & j & e & Hc & Hj & He & ->).
      exists (None, c, Some j). unfold C_lines.
      apply elem_of_app. right.
      apply list_elem_of_bind. exists c. split; [|done].
      apply list_elem_of_bind. exists j. split; [|done].
      apply list_elem_of_bind. exists e. split; [|done].
      by apply list_elem_of_singleton.
    + simpl in H. by destruct (matched (match_L line)).
Qed.

Lemma C_lines_ok : Forall C_line_ok C_lines.
Proof. apply (bool_decide_unpack _). by vm_compute. Qed.

(** X1 (the statement of claim C5): for every line that the classifier
    takes for a C-instruction, the
    assembler emits [111] followed by the 7 bits of comp, the 3 bits of
    dest and the 3 bits of jump that the tables of the specification give
    for the fields of the line (000 for an absent dest or jump); the
    lookups do not fail, and the word has 16 characters, each 0 or 1. *)
Theorem C_instruction_word (line : string) (st : pass2) :
  commandType line = C_COMMAND →
  ∃ (d : option string) (c : string) (j : option string)
    (cbits dbits jbits : string),
    (line = instruction_text d c j
     ∨ line = instruction_text d c j +:+ String newline "")
    ∧ assoc c comp_table = Some cbits
    ∧ assoc d dest_table = Some dbits
    ∧ assoc j jump_table = Some jbits
    ∧ String.length cbits = 7%nat
    ∧ String.length dbits = 3%nat
    ∧ String.length jbits = 3%nat
    ∧ second_pass_command line st
      = Ok (mkPass2 (ramAddr st) (symbolTable st)
              (hackfile st ++ ["111" +:+ cbits +:+ dbits +:+ jbits]))
    ∧ String.length ("111" +:+ cbits +:+ dbits +:+ jbits) = 16%nat
    ∧ all_bits ("111" +:+ cbits +:+ dbits +:+ jbits) = true.
Proof.
  intros Ht. destruct (commandType_C_lines line Ht) as [[[d c] j] Hin].
  pose proof (proj1 (Forall_forall _ _) C_lines_ok _ Hin) as Hok.
  unfold C_line_ok in Hok.
  destruct Hok as (Htext & Hcomp & Hdest & Hjump & [cbits Hc] & [dbits Hd]
                   & [jbits Hj] & Hcc & Hcd & Hcj & Hlc & Hld & Hlj & Hbits).
  rewrite Hc, Hd, Hj in *. simpl in Hlc, Hld, Hlj, Hbits.
  exists d, c, j, cbits, dbits, jbits.
  repeat (split; [done|]).
  split; [|split].
  - unfold second_pass_command. rewrite Ht.
    destruct (decide (C_COMMAND = C_COMMAND)); [|done].
    cbv zeta. rewrite Hcomp, Hdest, Hjump, Hcc, Hcd, Hcj.
    unfold concat. rewrite !bind_Ok, !append_assoc. reflexivity.
  - rewrite !length_append, Hlc, Hld, Hlj. reflexivity.
  - exact Hbits.
Qed.

Lemma C_instruction_word_witness :
  second_pass_command "D=D+A" (mkPass2 16 SymbolTable.init [])
  = Ok (mkPass2 16 SymbolTable.init ["1110000010010000"]).
Proof.
  destruct (C_instruction_word "D=D+A" (mkPass2 16 SymbolTable.init []) eq_refl)
    as (d & c & j & cbits & dbits & jbits & _ & _ & _ & _ & _ & _ & _ & H & _).
  rewrite H. by vm_compute.
Defined.

(** **** The first pass *)

Lemma symbol_of_L_COMMAND (line : string) :
  commandType line = L_COMMAND → is_Some (symbol line).
Proof.
  unfold commandType, symbol.
  generalize (match_pair DEST "=" COMP line || match_pair COMP ";" JUMP line)%bool.
  intros isC. destruct (match_A line), isC, (match_L line); simpl; eauto; done.
Qed.

Lemma symbol_of_A_COMMAND (line : string) :
  commandType line = A_COMMAND → ∃ s, symbol line = Some s ∧ s ≠ "".
Proof.
  unfold commandType, symbol.
  generalize (match_pair DEST "=" COMP line || match_pair COMP ";" JUMP line)%bool.
  intros isC. destruct (match_A line) as [s|] eqn:Hm.
  - intros _. exists s. split; [done|].
    unfold match_A in Hm. repeat case_match; simplify_eq.
    unfold dot_plus_end in Hm. repeat case_match; by simplify_eq.
  - destruct isC, (match_L line); done.
Qed.

Lemma instruction_count_cons (line : string) (commands : list string) :
  instruction_count (line :: commands)
  = if decide (is_instruction line) then S (instruction_count commands)
    else instruction_count commands.
Proof.
  unfold instruction_count. rewrite filter_cons. by case_decide.
Qed.

Lemma instruction_count_app (pre post : list string) :
  instruction_count (pre ++ post)
  = (instruction_count pre + instruction_count post)%nat.
Proof. unfold instruction_count. by rewrite filter_app, length_app. Qed.

Lemma label_names_cons (line : string) (commands : list string) :
  label_names (line :: commands)
  = match (if decide (commandType line = L_COMMAND) then symbol line else None) with
    | Some name => name :: label_names commands
    | None => label_names commands
    end.
Proof. reflexivity. Qed.




(** **** The variables of a program *)

Lemma elem_of_first_occurrences (l : list string) (x : string) :
  x ∈ first_occurrences l ↔ x ∈ l.
Proof.
  induction l as [|y l IH]; [done|].
  simpl. rewrite !elem_of_cons, list_elem_of_filter, IH.
  destruct (decide (x = y)); tauto.
Qed.



(** **** The second pass *)














(** C9 at a failing input: the line [D=Q] is no instruction and no label;
    the first pass counts it as an instruction, so that [L] is bound to 2,
    the second pass writes nothing for it, and the assembly ends normally
    with two words. The full form [dest=comp;jump] is not recognised
    either. *)
Lemma invalid_line_is_skipped :
  commandType (clean ("D=Q" +:+ String newline "")) = U_COMMAND
  ∧ commandType "AM=M-1;JMP" = U_COMMAND
  ∧ ∃ table,
      main (file_of ["@1"; "D=Q"; "(L)"; "@L"])
      = Ok (["0000000000000001"; "0000000000000010"], table)
      ∧ table !! "L" = Some 2.
Proof. repeat split. eexists. split; by vm_compute. Qed.

(** **** More on the first pass *)

Lemma label_names_app (pre post : list string) :
  label_names (pre ++ post) = label_names pre ++ label_names post.
Proof. unfold label_names. apply omap_app. Qed.

Lemma first_pass_cons_label (line name : string) (commands : list string)
    (romAddr : Z) (table : gmap string Z) :
  commandType line = L_COMMAND →
  symbol line = Some name →
  first_pass (line :: commands) romAddr table
  = first_pass commands romAddr (<[name := romAddr]> table).
Proof.
  intros Ht Hs. simpl. rewrite Ht, Hs.
  by rewrite (decide_True (P := L_COMMAND = L_COMMAND)).
Qed.

Lemma first_pass_cons_other (line : string) (commands : list string)
    (romAddr : Z) (table : gmap string Z) :
  commandType line ≠ L_COMMAND →
  first_pass (line :: commands) romAddr table
  = first_pass commands (romAddr + 1) table.
Proof. intros Ht. simpl. by rewrite decide_False. Qed.

(** The first pass leaves the binding of a name unchanged when no label
    line declares the name. *)
Lemma first_pass_other (commands : list string) :
  ∀ (romAddr : Z) (table : gmap string Z) (name : string),
    name ∉ label_names commands →
    (first_pass commands romAddr table).2 !! name = table !! name.
Proof.
  induction commands as [|line commands IH]; intros romAddr table name Hname;
    [done|].
  rewrite label_names_cons in Hname.
  destruct (decide (commandType line = L_COMMAND)) as [Ht|Ht].
  - destruct (symbol_of_L_COMMAND line Ht) as [name0 Hs].
    rewrite Hs in Hname. apply not_elem_of_cons in Hname as [Hne Hname].
    rewrite (first_pass_cons_label line name0) by done.
    rewrite IH by done. by rewrite lookup_insert_ne.
  - rewrite first_pass_cons_other by done. by apply IH.
Qed.

(** X3: the first pass counts every line that is not a label line, also
    a line that is no instruction; it binds a label to the count of the
    lines before its declaration that are no label lines, and when a label
    is declared several times the last declaration stays. *)
Theorem first_pass_counts (commands : list string) (romAddr : Z)
    (table : gmap string Z) :
  let count (l : list string) : Z :=
    Z.of_nat (length (filter (λ line, commandType line ≠ L_COMMAND) l)) in
  (first_pass commands romAddr table).1 = romAddr + count commands
  ∧ ∀ pre line post name,
      commands = pre ++ line :: post →
      commandType line = L_COMMAND →
      symbol line = Some name →
      name ∉ label_names post →
      (first_pass commands romAddr table).2 !! name = Some (romAddr + count pre).
Proof.
  intros count. revert romAddr table.
  induction commands as [|line0 commands IH]; intros romAddr table.
  - split; [unfold count; simpl; lia|]. intros [|??] ???; done.
  - destruct (decide (commandType line0 = L_COMMAND)) as [Ht|Ht].
    + destruct (symbol_of_L_COMMAND line0 Ht) as [name0 Hs0].
      rewrite (first_pass_cons_label line0 name0) by done.
      destruct (IH romAddr (<[name0 := romAddr]> table)) as [IH1 IH2].
      assert (∀ l, count (line0 :: l) = count l) as Hcount.
      { intros l. unfold count. rewrite filter_cons_False; [done|]. by intros []. }
      split; [by rewrite Hcount|].
      intros pre line post name Heq Hline Hs Hlast.
      destruct pre as [|line1 pre]; simpl in Heq;
        [injection Heq as <- <-|injection Heq as <- ->].
      * rewrite Hs0 in Hs. injection Hs as <-.
        rewrite first_pass_other by done. rewrite lookup_insert_eq.
        unfold count. simpl. f_equal. lia.
      * rewrite Hcount. exact (IH2 pre line post name eq_refl Hline Hs Hlast).
    + rewrite first_pass_cons_other by done.
      destruct (IH (romAddr + 1) table) as [IH1 IH2].
      assert (∀ l, count (line0 :: l) = 1 + count l) as Hcount.
      { intros l. unfold count. rewrite filter_cons_True by done. simpl length. lia. }
      split; [rewrite IH1, Hcount; lia|].
      intros pre line post name Heq Hline Hs Hlast.
      destruct pre as [|line1 pre]; simpl in Heq;
        [injection Heq as <- <-; congruence|injection Heq as <- ->].
      rewrite (IH2 pre line post name eq_refl Hline Hs Hlast), Hcount.
      f_equal. lia.
Qed.

(** **** More on the second pass *)

Lemma digit_value_nonneg (c : ascii) (d : Z) : digit_value c = Some d → 0 ≤ d.
Proof.
  unfold digit_value. destruct (Ascii.is_nat c) as [k|]; [|done].
  intros [= <-]. lia.
Qed.

Lemma int_digits_nonneg (s : string) :
  ∀ (acc : Z) (prev : bool) (n : Z),
    0 ≤ acc → int_digits acc prev s = Some n → 0 ≤ n.
Proof.
  induction s as [|c s IH]; intros acc prev n Hacc; simpl.
  - destruct prev; [|done]. by intros [= <-].
  - destruct (digit_value c) as [d|] eqn:Hd.
    + apply IH. apply digit_value_nonneg in Hd. lia.
    + destruct (Ascii.eqb c "_" && prev)%bool; [|done].
      destruct s as [|c' s']; [done|].
      destruct (isdigit c'); [|done]. by apply IH.
Qed.

Lemma rstrip_by_head (p : ascii → bool) (c : ascii) (r : string) :
  p c = false → ∃ r', rstrip_by p (String c r) = String c r'.
Proof. intros Hc. simpl. rewrite Hc. destruct (rstrip_by p r); eauto. Qed.


Lemma int_digit_start (s : string) (n : Z) :
  s ≠ "" → match_nondigits s = false → Py.int s = Ok n → 0 ≤ n.
Proof.
  destruct s as [|c r]; [done|]. intros _ Hc. simpl in Hc.
  apply negb_false_iff in Hc.
  destruct (rstrip_by_head isspace c r (isdigit_not_space c Hc)) as [r' Hr].
  unfold Py.int, strip. rewrite Hr. simpl lstrip_by.
  rewrite (isdigit_not_space c Hc).
  destruct c as [[] [] [] [] [] [] [] []]; try discriminate Hc;
    lazy beta iota zeta;
    match goal with
    | |- context [int_digits 0 false ?u] =>
        destruct (int_digits 0 false u) as [m|] eqn:Hm
    end; intros [= <-]; apply int_digits_nonneg in Hm; lia.
Qed.

Lemma second_pass_skip (line : string) (st : pass2) :
  commandType line ≠ A_COMMAND → commandType line ≠ C_COMMAND →
  second_pass_command line st = Ok st.
Proof.
  intros HA HC. unfold second_pass_command.
  rewrite (decide_False (P := C_COMMAND = commandType line)) by done.
  by rewrite (decide_False (P := A_COMMAND = commandType line)) by done.
Qed.

Lemma second_pass_C_word (line : string) (st : pass2) :
  commandType line = C_COMMAND →
  ∃ word,
    second_pass_command line st
    = Ok (mkPass2 (ramAddr st) (symbolTable st) (hackfile st ++ [word]))
    ∧ String.length word = 16%nat ∧ all_bits word = true.
Proof.
  intros Ht. destruct (commandType_C_lines line Ht) as [[[d c] j] Hin].
  pose proof (proj1 (Forall_forall _ _) C_lines_ok _ Hin) as Hok.
  unfold C_line_ok in Hok.
  destruct Hok as (_ & Hcomp & Hdest & Hjump & [cbits Hc] & [dbits Hd]
                   & [jbits Hj] & Hcc & Hcd & Hcj & Hlc & Hld & Hlj & Hbits).
  rewrite Hc, Hd, Hj in *. simpl in Hlc, Hld, Hlj, Hbits.
  exists ("111" +:+ cbits +:+ dbits +:+ jbits). split; [|split].
  - unfold second_pass_command. rewrite Ht.
    destruct (decide (C_COMMAND = C_COMMAND)); [|done].
    cbv zeta. rewrite Hcomp, Hdest, Hjump, Hcc, Hcd, Hcj.
    unfold concat. rewrite !bind_Ok, !append_assoc. reflexivity.
  - rewrite !length_append, Hlc, Hld, Hlj. reflexivity.
  - exact Hbits.
Qed.

Lemma A_word_format (address : Z) :
  String.length ("0" +:+ binary 15 address) = 16%nat
  ∧ all_bits ("0" +:+ binary 15 address) = true.
Proof.
  split.
  - by rewrite length_append, length_binary.
  - by rewrite all_bits_append, all_bits_binary.
Qed.

(** What a command that succeeds does to the state: the table grows,
    and only by a binding to the next free address; at most one word is
    written, and exactly one for an instruction. *)
Lemma second_pass_command_Ok (line : string) (st st' : pass2) :
  second_pass_command line st = Ok st' →
  symbolTable st ⊆ symbolTable st'
  ∧ ramAddr st ≤ ramAddr st'
  ∧ (∀ v a, symbolTable st' !! v = Some a →
            symbolTable st !! v = Some a ∨ a = ramAddr st)
  ∧ ∃ words,
      hackfile st' = hackfile st ++ words
      ∧ length words = instruction_count [line]
      ∧ Forall (λ w, String.length w = 16%nat ∧ all_bits w = true) words.
Proof.
  intros Hstep. rewrite (instruction_count_cons line []).
  change (instruction_count []) with 0%nat.
  destruct (commandType line) eqn:Ht.
  - (* A_COMMAND *)
    rewrite decide_True by (by left).
    destruct (symbol_of_A_COMMAND line Ht) as (s & Hs & Hne).
    rewrite (second_pass_A line s st Ht Hs) in Hstep.
    destruct (match_nondigits s) eqn:Hnd.
    + unfold SymbolTable.contains, SymbolTable.getAddress in Hstep.
      destruct (symbolTable st !! s) as [a|] eqn:Hlook.
      * rewrite bool_decide_true in Hstep by eauto.
        rewrite !bind_Ok in Hstep. cbv beta iota in Hstep.
        destruct (decide (0 ≤ a)) as [Ha|Ha];
          [|by rewrite emit_address_negative in Hstep by lia].
        rewrite emit_address in Hstep by done. injection Hstep as <-. simpl.
        split; [done|]. split; [lia|]. split; [by left|].
        eexists. split; [done|]. split; [done|].
        apply Forall_singleton, A_word_format.
      * rewrite bool_decide_false in Hstep by (by intros [? ?]).
        rewrite !bind_Ok in Hstep. cbv beta iota in Hstep.
        destruct (decide (0 ≤ ramAddr st)) as [Ha|Ha];
          [|by rewrite emit_address_negative in Hstep by lia].
        rewrite emit_address in Hstep by done. injection Hstep as <-. simpl.
        unfold SymbolTable.addEntry.
        split; [by apply insert_subseteq|]. split; [lia|]. split.
        { intros v a. destruct (decide (s = v)) as [->|Hv].
          - rewrite lookup_insert_eq. intros [= <-]. by right.
          - rewrite lookup_insert_ne by done. by left. }
        eexists. split; [done|]. split; [done|].
        apply Forall_singleton, A_word_format.
    + rewrite !bind_Ok in Hstep. cbv beta iota in Hstep.
      destruct (Py.int s) as [n|e] eqn:Hint.
      * rewrite (dec2bin_Str s n Hint) in Hstep.
        rewrite emit_address in Hstep by (by eapply int_digit_start).
        injection Hstep as <-. simpl.
        split; [done|]. split; [lia|]. split; [by left|].
        eexists. split; [done|]. split; [done|].
        apply Forall_singleton, A_word_format.
      * unfold dec2bin in Hstep. simpl to_int in Hstep.
        by rewrite Hint in Hstep.
  - (* C_COMMAND *)
    rewrite decide_True by (by right).
    destruct (second_pass_C_word line st Ht) as (word & Hword & Hlen & Hbits).
    rewrite Hword in Hstep. injection Hstep as <-. simpl.
    split; [done|]. split; [lia|]. split; [by left|].
    exists [word]. split; [done|]. split; [done|]. by apply Forall_singleton.
  - (* L_COMMAND *)
    rewrite decide_False by (unfold is_instruction; rewrite Ht; intros [|]; done).
    rewrite second_pass_skip in Hstep by (by rewrite Ht).
    injection Hstep as <-.
    split; [done|]. split; [lia|]. split; [by left|].
    exists []. by rewrite app_nil_r.
  - (* U_COMMAND *)
    rewrite decide_False by (unfold is_instruction; rewrite Ht; intros [|]; done).
    rewrite second_pass_skip in Hstep by (by rewrite Ht).
    injection Hstep as <-.
    split; [done|]. split; [lia|]. split; [by left|].
    exists []. by rewrite app_nil_r.
Qed.


Lemma second_pass_cons (line : string) (commands : list string) (st : pass2) :
  second_pass (line :: commands) st
  = second_pass_command line st ≫= second_pass commands.
Proof. reflexivity. Qed.

Lemma second_pass_Ok (commands : list string) :
  ∀ st st',
    second_pass commands st = Ok st' →
    symbolTable st ⊆ symbolTable st'
    ∧ ramAddr st ≤ ramAddr st'
    ∧ (∀ v a, symbolTable st' !! v = Some a →
              symbolTable st !! v = Some a ∨ ramAddr st ≤ a)
    ∧ ∃ words,
        hackfile st' = hackfile st ++ words
        ∧ length words = instruction_count commands
        ∧ Forall (λ w, String.length w = 16%nat ∧ all_bits w = true) words.
Proof.
  induction commands as [|line commands IH]; intros st st' Hrun.
  - injection Hrun as <-. split; [done|]. split; [lia|]. split; [by left|].
    exists []. by rewrite app_nil_r.
  - rewrite second_pass_cons in Hrun.
    destruct (second_pass_command line st) as [st1|e] eqn:Hstep; [|done].
    rewrite bind_Ok in Hrun.
    destruct (second_pass_command_Ok line st st1 Hstep)
      as (Hsub1 & Hram1 & Hnew1 & words1 & Hfile1 & Hlen1 & Hfmt1).
    destruct (IH st1 st' Hrun)
      as (Hsub & Hram & Hnew & words & Hfile & Hlen & Hfmt).
    split; [by etrans|]. split; [lia|]. split.
    { intros v a Hv. destruct (Hnew v a Hv) as [Hold|Hge]; [|right; lia].
      destruct (Hnew1 v a Hold) as [?| ->]; [by left|right; lia]. }
    exists (words1 ++ words). split; [by rewrite Hfile, Hfile1, app_assoc|].
    split.
    + rewrite length_app, Hlen1, Hlen.
      change (line :: commands) with ([line] ++ commands).
      by rewrite instruction_count_app.
    + by apply Forall_app.
Qed.



Lemma main_unfold (asmfile : list string) :
  main asmfile
  = (st ← second_pass (advance asmfile)
            (mkPass2 16 (first_pass (advance asmfile) 0 SymbolTable.init).2 []);
     Ok (hackfile st, symbolTable st)).
Proof.
  unfold main. by destruct (first_pass (advance asmfile) 0 SymbolTable.init).
Qed.

(** X4: when the assembly succeeds, the output has one word for each A-
    and C-instruction of the program and nothing for the other lines, and
    every word has 16 characters, each 0 or 1. *)
Theorem main_output (asmfile words : list string) (table : gmap string Z) :
  main asmfile = Ok (words, table) →
  length words = instruction_count (advance asmfile)
  ∧ Forall (λ w, String.length w = 16%nat ∧ all_bits w = true) words.
Proof.
  rewrite main_unfold. intros Hmain.
  destruct (second_pass _ _) as [st|e] eqn:Hrun; [|done].
  rewrite bind_Ok in Hmain. injection Hmain as <- <-.
  destruct (second_pass_Ok _ _ _ Hrun) as (_ & _ & _ & ws & Hfile & Hlen & Hfmt).
  simpl in Hfile. by rewrite Hfile.
Qed.

Lemma main_output_witness :
  length ["0000000000000010"; "1110110000010000"] = 2%nat
  ∧ Forall (λ w, String.length w = 16%nat ∧ all_bits w = true)
           ["0000000000000010"; "1110110000010000"].
Proof.
  assert (∃ table, main (file_of ["@2"; "(L)"; "D=A"])
                   = Ok (["0000000000000010"; "1110110000010000"], table))
    as [table Hmain] by (by eexists).
  exact (main_output _ _ _ Hmain).
Defined.

(** X6: a symbol that the table binds at its creation is bound to the
    same address when the assembly ends, unless a label line of the
    program declares it. *)
Theorem predefined_symbols_kept (asmfile words : list string)
    (table : gmap string Z) (name : string) (address : Z) :
  main asmfile = Ok (words, table) →
  SymbolTable.init !! name = Some address →
  name ∉ label_names (advance asmfile) →
  table !! name = Some address.
Proof.
  rewrite main_unfold. intros Hmain Hinit Hname.
  destruct (second_pass _ _) as [st|e] eqn:Hrun; [|done].
  rewrite bind_Ok in Hmain. injection Hmain as <- <-.
  destruct (second_pass_Ok _ _ _ Hrun) as (Hsub & _).
  eapply lookup_weaken; [|exact Hsub]. simpl.
  by rewrite first_pass_other.
Qed.

Lemma predefined_symbols_kept_witness :
  ∃ words table,
    main (file_of ["@SCREEN"; "(LOOP)"; "@LOOP"; "@R13"; "@i"])
    = Ok (words, table)
    ∧ table !! "SCREEN" = Some 16384 ∧ table !! "R13" = Some 13.
Proof.
  assert (∃ words table,
             main (file_of ["@SCREEN"; "(LOOP)"; "@LOOP"; "@R13"; "@i"])
             = Ok (words, table)) as (words & table & Hmain)
    by (do 2 eexists; vm_compute; reflexivity).
  exists words, table. split; [done|]. split.
  - apply (predefined_symbols_kept _ _ _ "SCREEN" 16384 Hmain);
      [by vm_compute|].
    vm_compute. intros H%list_elem_of_singleton. discriminate H.
  - apply (predefined_symbols_kept _ _ _ "R13" 13 Hmain);
      [by vm_compute|].
    vm_compute. intros H%list_elem_of_singleton. discriminate H.
Defined.




(** **** Lines that are taken for no instruction *)




End Assembler_properties.

(** * More properties of the VM translator *)

Section VMtranslator_more_properties.
Import Py VMtranslator.

(** **** How a translation can fail *)



Lemma translate_files_cons (outputFileName fileName : string)
    (content : list string) (fileList : list (string * list string))
    (codeWriter : option CodeWriter) :
  translate_files outputFileName ((fileName, content) :: fileList) codeWriter
  = translate (advance content 1)
      (match codeWriter with
       | Some cw => setFileName fileName cw
       | None => writeInit (init outputFileName)
       end)
    ≫= λ cw, translate_files outputFileName fileList (Some cw).
Proof. reflexivity. Qed.


Lemma translate_files_Some (outputFileName : string)
    (fileList : list (string * list string)) :
  ∀ (codeWriter r : option CodeWriter),
    translate_files outputFileName fileList codeWriter = Ok r →
    (is_Some codeWriter ∨ fileList ≠ []) → is_Some r.
Proof.
  induction fileList as [|[fileName content] fileList IH];
    intros codeWriter r H Hsome.
  - injection H as <-. by destruct Hsome.
  - rewrite translate_files_cons in H.
    destruct (translate _ _) as [cw1|e1] eqn:H1; [|done].
    rewrite bind_Ok in H. eapply IH; [exact H|]. left. eauto.
Qed.



(** **** What a translation writes *)

Lemma method_call_prefix (self self' : CodeWriter) :
  method_call self self' → cw_f self `prefix_of` cw_f self'.
Proof.
  destruct 1;
    unfold setFileName, writeArithmetic, writeInit, writePushPop, writeLabel,
      writeIf, writeGoto, writeCall, writeFunction, writeReturn, lteqgt,
      write, set_functionName, set_retAddrCnt, set_cnt;
    repeat case_match; simplify_eq; simpl;
    first [ by eexists
          | by exists []; rewrite app_nil_r
          | rewrite <- app_assoc; by eexists ].
Qed.

Lemma rtc_method_call_prefix (self self' : CodeWriter) :
  rtc method_call self self' → cw_f self `prefix_of` cw_f self'.
Proof.
  induction 1 as [|x y z Hxy _ IH]; [done|].
  etrans; [by apply method_call_prefix|done].
Qed.

Lemma translate_files_rtc (outputFileName : string)
    (fileList : list (string * list string)) :
  ∀ (self self' : CodeWriter),
    translate_files outputFileName fileList (Some self) = Ok (Some self') →
    rtc method_call self self'.
Proof.
  induction fileList as [|[fileName content] fileList IH]; intros self self' H.
  - by injection H as <-.
  - rewrite translate_files_cons in H.
    destruct (translate _ _) as [cw1|e1] eqn:H1; [|done].
    rewrite bind_Ok in H.
    eapply rtc_l; [apply (call_setFileName fileName)|].
    etrans; [by eapply translate_rtc|by apply IH].
Qed.

(** X9: a translation only appends to the output: what the writer has
    written before a sequence of files is translated is a prefix of the
    output after it; and neither counter decreases, whatever the files
    contain. *)
Theorem translation_appends (outputFileName : string)
    (fileList : list (string * list string)) (self : CodeWriter)
    (r : option CodeWriter) :
  translate_files outputFileName fileList (Some self) = Ok r →
  ∃ self',
    r = Some self'
    ∧ cw_f self `prefix_of` cw_f self'
    ∧ ret_counter self ≤ ret_counter self'
    ∧ cmp_counter self ≤ cmp_counter self'.
Proof.
  intros H.
  destruct (translate_files_Some _ _ _ _ H) as [self' ->]; [left; eauto|].
  apply translate_files_rtc in H.
  exists self'. split; [done|]. split; [by apply rtc_method_call_prefix|].
  split; [by apply rtc_ret_counter|by apply rtc_cmp_counter].
Qed.

Lemma translation_appends_witness :
  ∃ self',
    translate_files "out.asm" [("B.vm", file_of ["eq"; "call f 1"])]
      (Some (writeInit (init "out.asm")))
    = Ok (Some self')
    ∧ cw_f (writeInit (init "out.asm")) `prefix_of` cw_f self'
    ∧ ret_counter (writeInit (init "out.asm")) ≤ ret_counter self'
    ∧ cmp_counter (writeInit (init "out.asm")) ≤ cmp_counter self'.
Proof.
  assert (∃ r, translate_files "out.asm" [("B.vm", file_of ["eq"; "call f 1"])]
                 (Some (writeInit (init "out.asm"))) = Ok r) as [r Hr]
    by (eexists; vm_compute; reflexivity).
  destruct (translation_appends _ _ _ _ Hr) as (self' & -> & H).
  exists self'. split; [exact Hr|exact H].
Defined.

(** X10: when [main] succeeds, the output starts with the bootstrap:
    SP = 256, then [call Sys.init 0] with the return label
    [Sys.init$returnAddr0]. *)
Theorem main_starts_with_bootstrap (argv1 : input) (codeWriter : CodeWriter) :
  main argv1 = Ok codeWriter →
  ["// bootstrap code"; "@256"; "D=A"; "@SP"; "M=D";
   "// call Sys.init 0";
   "@Sys.init$returnAddr0"; "D=A"; "@SP"; "A=M"; "M=D"; "@SP"; "M=M+1";
   "// push LCL"; "@LCL"; "D=M"; "@SP"; "A=M"; "M=D"; "@SP"; "M=M+1";
   "// push ARG"; "@ARG"; "D=M"; "@SP"; "A=M"; "M=D"; "@SP"; "M=M+1";
   "// push THIS"; "@THIS"; "D=M"; "@SP"; "A=M"; "M=D"; "@SP"; "M=M+1";
   "// push THAT"; "@THAT"; "D=M"; "@SP"; "A=M"; "M=D"; "@SP"; "M=M+1";
   "// ARG = SP-numArgs-5"; "@SP"; "D=M"; "@5"; "D=D-A"; "@ARG"; "M=D";
   "// LCL = SP"; "@SP"; "D=M"; "@LCL"; "M=D";
   "// goto Sys.init"; "@Sys.init"; "0;JMP";
   "// declare label for the return address"; "(Sys.init$returnAddr0)"]
  `prefix_of` cw_f codeWriter
  ∧ 1 ≤ ret_counter codeWriter.
Proof.
  unfold main. intros H.
  assert (∃ outputFileName fileList,
             translate_files outputFileName fileList None = Ok (Some codeWriter))
    as (outputFileName & fileList & Hrun).
  { destruct argv1 as [path content|path files];
      (destruct (translate_files _ _ None) as [[cw|]|e1] eqn:Hrun;
       [rewrite bind_Ok in H; injection H as ->; eauto|done|done]). }
  destruct fileList as [|[fileName content] fileList]; [done|].
  rewrite translate_files_cons in Hrun.
  destruct (translate _ _) as [cw1|e1] eqn:H1; [|done].
  rewrite bind_Ok in Hrun.
  apply translate_rtc in H1. apply translate_files_rtc in Hrun.
  assert (rtc method_call (writeInit (init outputFileName)) codeWriter) as Hrtc
    by (by etrans).
  split.
  - exact (rtc_method_call_prefix _ _ Hrtc).
  - apply rtc_ret_counter in Hrtc. exact Hrtc.
Qed.

Lemma main_starts_with_bootstrap_witness :
  ∃ codeWriter,
    main (File "X.vm" (file_of ["push constant 7"])) = Ok codeWriter
    ∧ take 7 (cw_f codeWriter)
      = ["// bootstrap code"; "@256"; "D=A"; "@SP"; "M=D";
         "// call Sys.init 0"; "@Sys.init$returnAddr0"]
    ∧ 1 ≤ ret_counter codeWriter.
Proof.
  assert (∃ cw, main (File "X.vm" (file_of ["push constant 7"])) = Ok cw)
    as [cw Hcw] by (eexists; vm_compute; reflexivity).
  destruct (main_starts_with_bootstrap _ _ Hcw) as [[rest Hrest] Hret].
  exists cw. split; [exact Hcw|]. split; [|exact Hret].
  by rewrite Hrest.
Defined.

(** **** The short name of a file *)

Lemma mem_append (c : ascii) (s t : string) :
  mem c (s +:+ t) = (mem c s || mem c t)%bool.
Proof.
  induction s as [|d s IH]; [reflexivity|].
  rewrite append_cons. simpl. by destruct (Ascii.eqb c d).
Qed.

Lemma basename_plain (name : string) :
  mem "/"%char name = false → basename name = name.
Proof.
  destruct name as [|c name]; [done|].
  cbn [mem basename]. rewrite (Ascii.eqb_sym c "/"%char).
  destruct (Ascii.eqb "/"%char c); [done|]. by intros ->.
Qed.

Lemma basename_join (dir name : string) :
  mem "/"%char name = false → basename (dir +:+ "/" +:+ name) = name.
Proof.
  intros Hname. induction dir as [|c dir IH].
  - change ("" +:+ "/" +:+ name) with (String "/"%char name).
    cbn [basename]. by rewrite Hname.
  - rewrite append_cons. cbn [basename].
    rewrite mem_append. change ("/" +:+ name) with (String "/"%char name).
    cbn [mem]. change (Ascii.eqb "/"%char "/"%char) with true.
    by rewrite orb_true_r.
Qed.

Lemma rstrip_by_append_all (p : ascii → bool) (s t : string) :
  rstrip_by p t = "" → rstrip_by p (s +:+ t) = rstrip_by p s.
Proof.
  intros Ht. induction s as [|c s IH]; [done|].
  rewrite append_cons. simpl. by rewrite IH.
Qed.

Lemma rstrip_by_snoc_false (p : ascii → bool) (s : string) (c : ascii) :
  p c = false → rstrip_by p (s +:+ String c "") = s +:+ String c "".
Proof.
  intros Hc. induction s as [|d s IH]; [by simpl; rewrite Hc|].
  rewrite append_cons. simpl. rewrite IH. by destruct s.
Qed.

Lemma length_rstrip_by (p : ascii → bool) (s : string) :
  (String.length (rstrip_by p s) ≤ String.length s)%nat.
Proof.
  induction s as [|c s IH]; [done|]. simpl.
  destruct (rstrip_by p s); [destruct (p c)|]; simpl in *; lia.
Qed.

(** X11: for a file [stem.vm], alone or in a directory, the short name
    that [setFileName] keeps is the stem without its own trailing
    characters [.], [v] and [m]: it is the stem when the stem ends with
    another character, and it is shorter than the stem otherwise. *)
Theorem setFileName_short_name (dir stem : string) (self : CodeWriter) :
  mem "/"%char stem = false →
  file_short_name (setFileName (dir +:+ "/" +:+ stem +:+ ".vm") self)
  = rstrip ".vm" stem
  ∧ file_short_name (setFileName (stem +:+ ".vm") self) = rstrip ".vm" stem
  ∧ ∀ t c, stem = t +:+ String c "" →
      if mem c ".vm" then rstrip ".vm" stem ≠ stem
      else rstrip ".vm" stem = stem.
Proof.
  intros Hstem.
  assert (mem "/"%char (stem +:+ ".vm") = false) as Hname.
  { rewrite mem_append, Hstem. reflexivity. }
  assert (rstrip ".vm" (stem +:+ ".vm") = rstrip ".vm" stem) as Hstrip.
  { by apply rstrip_by_append_all. }
  split; [|split].
  - unfold file_short_name, setFileName. simpl.
    by rewrite basename_join, Hstrip.
  - unfold file_short_name, setFileName. simpl.
    by rewrite basename_plain, Hstrip.
  - intros t c ->. unfold rstrip. destruct (mem c ".vm") eqn:Hc.
    + rewrite rstrip_by_append_all by (by cbn [rstrip_by]; rewrite Hc).
      intros Heq.
      pose proof (length_rstrip_by (λ c, mem c ".vm") t) as Hlen.
      rewrite Heq, length_append in Hlen. simpl in Hlen. lia.
    + by apply rstrip_by_snoc_false.
Qed.

Lemma setFileName_short_name_witness :
  file_short_name (setFileName ("dir" +:+ "/" +:+ "Main" +:+ ".vm")
                               (init "dir/dir.asm"))
  = "Main"
  ∧ rstrip ".vm" "Prom" ≠ "Prom".
Proof.
  destruct (setFileName_short_name "dir" "Main" (init "dir/dir.asm") eq_refl)
    as (H1 & _ & _).
  destruct (setFileName_short_name "dir" "Prom" (init "dir/dir.asm") eq_refl)
    as (_ & _ & H3).
  split; [exact H1|exact (H3 "Pro" "m"%char eq_refl)].
Defined.

End VMtranslator_more_properties.
